(** * Electricity consumption dashboard: a shallow embedding of
      [electricity_dashboard.py] and the properties of its usage report.

    The script is a Streamlit page: it loads a pandas [DataFrame] (uploaded
    CSV, manual entries kept in the session, or generated sample data),
    checks that the four required columns are there, computes four KPIs,
    builds grouped views for the charts and offers two downloads. The
    companion script [test_setup.py], which checks the installation, is
    embedded in the module [test_setup].

    Modelling choices, once and for all:
    - a Python [float] is an exact rational ([Qc]); IEEE-754 rounding is
      not modelled, so every arithmetic statement below is about exact
      arithmetic;
    - a [DataFrame] is its list of column names and its rows of cells; the
      row index is positional;
    - an operation of pandas that raises (KeyError, TypeError, ...) returns
      [None] in its pure model and [Raised] in the script monad;
    - Streamlit calls are recorded, in order, on the [screen] of the world;
    - DataFrame objects live in a heap and the script's variables hold
      addresses, so that in-place column assignment is visible. *)

From Stdlib Require Import QArith Qcanon Qround.
From Stdlib Require Import Ascii String.
From stdpp Require Import base decidable option list strings pretty sorting gmap numbers.

Local Open Scope string_scope.
Local Open Scope list_scope.
Local Open Scope nat_scope.

(** ** Cells and frames *)

(** A literal such as [0.15] in the source. *)
Definition lit (q : Q) : Qc := Q2Qc q.

(** What a DataFrame cell can hold in this program: a missing value, a
    Python string, a number, a truth value (a column of an uploaded file
    that reads as booleans), or a value of an ordered [pd.Categorical]
    (its code is the position of the label in the categories). *)
Inductive Cell :=
  | NaN
  | Str (s : string)
  | Num (x : Qc)
  | Bool (b : bool)
  | Cat (code : nat) (label : string).

Global Instance Cell_eq_dec : EqDecision Cell.
Proof. solve_decision. Defined.

Record DataFrame := mkDataFrame {
  columns : list string;
  rows : list (list Cell)
}.

Global Instance DataFrame_eq_dec : EqDecision DataFrame.
Proof. solve_decision. Defined.

(** One dictionary of the lists built at lines 44-49 and 90-95 of the
    script: the four keys, in the order the script writes them. *)
Record UsageRecord := mkUsageRecord {
  Month : string;
  UnitName : string;
  UnitsConsumed : Qc;
  Cost : Qc
}.

Global Instance UsageRecord_eq_dec : EqDecision UsageRecord.
Proof. solve_decision. Defined.

Definition required_columns : list string :=
  ["Month"; "UnitName"; "UnitsConsumed"; "Cost"].

Definition record_row (r : UsageRecord) : list Cell :=
  [Str (Month r); Str (UnitName r); Num (UnitsConsumed r); Num (Cost r)].

(** A table with the four columns and one row per record: the shape every
    loader of the script aims at (an uploaded file with only a header row
    gives [table_frame []]). *)
Definition table_frame (rs : list UsageRecord) : DataFrame :=
  mkDataFrame required_columns (record_row <$> rs).

(** [pd.DataFrame(data)] for a list of dictionaries with these four keys:
    the columns come from the dictionaries, so an empty list gives a frame
    without columns. *)
Definition pd_DataFrame (data : list UsageRecord) : DataFrame :=
  match data with
  | [] => mkDataFrame [] []
  | _ :: _ => table_frame data
  end.

(** ** Python built-ins *)

(** [max(a, b)]: the first argument unless the second is larger. *)
Definition py_max (a b : Qc) : Qc := if decide (a < b)%Qc then b else a.

(** The integer nearest to [x], ties to the even one. *)
Definition round_half_even (x : Qc) : Z :=
  let n := Qfloor x in
  let twice := (2 * (x - Qc_of_Z n))%Qc in
  if decide (twice < 1)%Qc then n
  else if decide (1 < twice)%Qc then (n + 1)%Z
  else if Z.even n then n else (n + 1)%Z.

(** [round(x, ndigits)] *)
Definition round (x : Qc) (ndigits : nat) : Qc :=
  (Qc_of_Z (round_half_even (x * Qc_of_Z (10 ^ Z.of_nat ndigits)))
   / Qc_of_Z (10 ^ Z.of_nat ndigits))%Qc.

(** ** The part of pandas the script calls *)

Fixpoint index_of (c : string) (l : list string) : option nat :=
  match l with
  | [] => None
  | x :: l' => if String.eqb x c then Some 0 else S <$> index_of c l'
  end.

(** [col in df.columns] *)
Definition has_column (df : DataFrame) (c : string) : bool :=
  bool_decide (c ∈ columns df).

(** [df[c]]: the column as a list of cells; [None] is KeyError. *)
Definition getitem (df : DataFrame) (c : string) : option (list Cell) :=
  i ← index_of c (columns df);
  Some ((λ r, nth i r NaN) <$> rows df).

(** The number a cell contributes to a sum: missing values are skipped
    ([skipna=True]), text makes the sum fail. *)
Definition cell_number (c : Cell) : option Qc :=
  match c with
  | Num x => Some x
  | Bool b => Some (if b then 1%Qc else 0%Qc)
  | NaN => Some 0%Qc
  | Str _ | Cat _ _ => None
  end.

(** [Series.sum()], accumulating from the first row on. *)
Definition Series_sum (s : list Cell) : option Qc :=
  xs ← mapM cell_number s;
  Some (foldl Qcplus 0%Qc xs).

Definition notna (c : Cell) : bool :=
  match c with NaN => false | _ => true end.

(** [Series.nunique()]: distinct values, missing ones not counted. *)
Definition Series_nunique (s : list Cell) : nat :=
  length (remove_dups (filter (λ c, notna c = true) s)).

(** Order used when pandas sorts labels or values of one kind. Cells of
    different kinds are never compared by the script on a table of the
    data model; [same_kind] guards every sort below, and a column that
    mixes kinds is refused ([None]) where pandas would raise or fall back
    to an order of its own. *)
Definition cell_le (a b : Cell) : Prop :=
  match a, b with
  | Str s, Str t => String.leb s t = true
  | Num x, Num y => (x ≤ y)%Qc
  | Bool a, Bool b => implb a b = true
  | Cat i _, Cat j _ => (i ≤ j)%nat
  | _, _ => True
  end.

Global Instance cell_le_dec : RelDecision cell_le.
Proof. intros [] []; simpl; apply _. Defined.

Definition same_kind (a b : Cell) : bool :=
  match a, b with
  | Str _, Str _ | Num _, Num _ | Bool _, Bool _ | Cat _ _, Cat _ _ => true
  | _, _ => false
  end.

Definition one_kind (l : list Cell) : bool :=
  match l with
  | [] => true
  | a :: l' => forallb (same_kind a) l'
  end.

(** The sorted distinct group labels of [groupby]: missing labels are
    dropped, labels that cannot be compared raise. *)
Definition group_keys (ks : list Cell) : option (list Cell) :=
  let present := remove_dups (filter (λ c, notna c = true) ks) in
  if one_kind present then Some (merge_sort cell_le present) else None.

Definition group_values (k : Cell) (kv : list (Cell * Cell)) : list Cell :=
  snd <$> filter (λ p, p.1 = k) kv.

(** [df.groupby(by)[val].sum().reset_index()]: one row per distinct label
    of [by], labels ascending, with the sum of [val] over the rows that
    carry the label. *)
Definition groupby_sum (df : DataFrame) (by_ val : string) : option DataFrame :=
  ks ← getitem df by_;
  vs ← getitem df val;
  keys ← group_keys ks;
  body ← mapM (λ k, t ← Series_sum (group_values k (zip ks vs));
                     Some [k; Num t]) keys;
  Some (mkDataFrame [by_; val] body).

(** [pd.Categorical(values, categories=..., ordered=True)]: a value that
    is not one of the categories becomes a missing value. *)
Definition pd_Categorical (values : list Cell) (categories : list string) : list Cell :=
  (λ v, match v with
        | Str s => match index_of s categories with
                   | Some i => Cat i s
                   | None => NaN
                   end
        | _ => NaN
        end) <$> values.

(** [df[c] = vals], in place on the frame it is applied to: an existing
    column is overwritten, a new one is added on the right; a length
    mismatch is a ValueError. *)
Definition setitem (df : DataFrame) (c : string) (vals : list Cell) : option DataFrame :=
  if bool_decide (length vals = length (rows df)) then
    match index_of c (columns df) with
    | Some i => Some (mkDataFrame (columns df)
                        (zip_with (λ r v, <[i:=v]> r) (rows df) vals))
    | None => Some (mkDataFrame (columns df ++ [c])
                      (zip_with (λ r v, r ++ [v]) (rows df) vals))
    end
  else None.

Definition row_le (i : nat) (r1 r2 : list Cell) : Prop :=
  cell_le (nth i r1 NaN) (nth i r2 NaN).

Global Instance row_le_dec i : RelDecision (row_le i).
Proof. intros r1 r2; unfold row_le; apply _. Defined.

Definition row_ge (i : nat) (r1 r2 : list Cell) : Prop := row_le i r2 r1.

Global Instance row_ge_dec i : RelDecision (row_ge i).
Proof. intros r1 r2; unfold row_ge; apply _. Defined.

(** [df.sort_values(c)] (ascending, [na_position='last']): the rows with
    a value in [c] in ascending order of it, then the rows where it is
    missing, in their previous order. pandas sorts with quicksort, whose
    order among equal keys is not specified; the merge sort here is one
    such order, and no statement below depends on it. *)
Definition sort_values (df : DataFrame) (c : string) : option DataFrame :=
  i ← index_of c (columns df);
  let present := filter (λ r, notna (nth i r NaN) = true) (rows df) in
  let missing := filter (λ r, notna (nth i r NaN) = false) (rows df) in
  if one_kind ((λ r, nth i r NaN) <$> present)
  then Some (mkDataFrame (columns df) (merge_sort (row_le i) present ++ missing))
  else None.

(** [df.nlargest(n, c)]: the [n] rows with the largest value in [c],
    largest first; rows where it is missing are left out. *)
Definition nlargest (n : nat) (df : DataFrame) (c : string) : option DataFrame :=
  i ← index_of c (columns df);
  let present := filter (λ r, notna (nth i r NaN) = true) (rows df) in
  if one_kind ((λ r, nth i r NaN) <$> present)
  then Some (mkDataFrame (columns df) (take n (merge_sort (row_ge i) present)))
  else None.

(** The numbers of a column, missing values left out; [None] when a
    cell is text. *)
Definition Series_numbers (s : list Cell) : option (list Qc) :=
  mapM cell_number (filter (λ c, notna c = true) s).

Inductive Agg := agg_sum | agg_mean | agg_max | agg_min.

Definition Qc_max (a b : Qc) : Qc := if decide (a < b)%Qc then b else a.
Definition Qc_min (a b : Qc) : Qc := if decide (b < a)%Qc then b else a.

(** One statistic of the values of a group, rounded to two decimals by
    the [.round(2)] that follows [agg]. *)
Definition aggregate (a : Agg) (s : list Cell) : option Cell :=
  xs ← Series_numbers s;
  Some match a, xs with
       | agg_sum, _ => Num (round (foldl Qcplus 0%Qc xs) 2)
       | _, [] => NaN
       | agg_mean, _ =>
           Num (round (foldl Qcplus 0%Qc xs / Qc_of_Z (Z.of_nat (length xs))) 2)
       | agg_max, x :: xs' => Num (round (foldl Qc_max x xs') 2)
       | agg_min, x :: xs' => Num (round (foldl Qc_min x xs') 2)
       end.

(** [df.groupby(by).agg({c: [...], ...}).round(2)] followed by the
    assignment of new column names: one row per label of [by], the label
    first (it is the index of the result), then one statistic per entry
    of [stats], under the names [names]. *)
Definition groupby_agg (df : DataFrame) (by_ : string)
    (stats : list (string * Agg)) (names : list string) : option DataFrame :=
  ks ← getitem df by_;
  keys ← group_keys ks;
  cols ← mapM (λ ca, vs ← getitem df ca.1; Some (ca.2, vs)) stats;
  body ← mapM (λ k, cells ← mapM (λ av, aggregate av.1 (group_values k (zip ks av.2))) cols;
                     Some (k :: cells)) keys;
  if bool_decide (length names = length stats)
  then Some (mkDataFrame (by_ :: names) body)
  else None.

(** [df[[c1; c2; ...]]]: the listed columns, in that order. *)
Definition select_columns (df : DataFrame) (cs : list string) : option DataFrame :=
  idx ← mapM (λ c, index_of c (columns df)) cs;
  Some (mkDataFrame cs ((λ r, (λ i, nth i r NaN) <$> idx) <$> rows df)).

(** The position of the first largest (smallest) number of a column,
    missing values left out; [None] (ValueError) when there is none. *)
Fixpoint arg_best (better : Qc → Qc → bool) (best : option (nat * Qc))
    (i : nat) (s : list Cell) : option (option nat) :=
  match s with
  | [] => Some (fst <$> best)
  | NaN :: s' => arg_best better best (S i) s'
  | c :: s' =>
      x ← cell_number c;
      match best with
      | Some (j, y) =>
          if better x y then arg_best better (Some (i, x)) (S i) s'
          else arg_best better best (S i) s'
      | None => arg_best better (Some (i, x)) (S i) s'
      end
  end.

Definition idxmax (s : list Cell) : option nat :=
  mjoin (arg_best (λ x y, bool_decide (y < x)%Qc) None 0 s).

Definition idxmin (s : list Cell) : option nat :=
  mjoin (arg_best (λ x y, bool_decide (x < y)%Qc) None 0 s).

(** [df.loc[i, c]] *)
Definition loc (df : DataFrame) (i : nat) (c : string) : option Cell :=
  j ← index_of c (columns df);
  r ← rows df !! i;
  r !! j.

(** ** Key performance indicators (lines 119-122) *)

(** [a / b]; [None] is a division by zero. *)
Definition truediv (a b : Qc) : option Qc :=
  if decide (b = 0%Qc) then None else Some (a / b)%Qc.

Definition total_units (df : DataFrame) : option Qc :=
  getitem df "UnitsConsumed" ≫= Series_sum.

Definition total_cost (df : DataFrame) : option Qc :=
  getitem df "Cost" ≫= Series_sum.

(** [total_cost / total_units if total_units > 0 else 0] *)
Definition avg_cost_per_unit (total_cost total_units : Qc) : option Qc :=
  if decide (0 < total_units)%Qc then truediv total_cost total_units
  else Some 0%Qc.

Definition num_departments (df : DataFrame) : option nat :=
  Series_nunique <$> getitem df "UnitName".

Record KPIs := mkKPIs {
  kpi_total_units : Qc;
  kpi_total_cost : Qc;
  kpi_avg_cost_per_unit : Qc;
  kpi_num_departments : nat
}.

Global Instance KPIs_eq_dec : EqDecision KPIs.
Proof. solve_decision. Defined.

Definition calculate_kpis (df : DataFrame) : option KPIs :=
  tu ← total_units df;
  tc ← total_cost df;
  avg ← avg_cost_per_unit tc tu;
  n ← num_departments df;
  Some (mkKPIs tu tc avg n).

(** ** Monthly views (lines 161-167 and 210-212) *)

Definition month_order : list string :=
  ["January"; "February"; "March"; "April"; "May"; "June";
   "July"; "August"; "September"; "October"; "November"; "December"].

(** The three statements that build [monthly_data] (with
    [val = "UnitsConsumed"]) and [monthly_cost] (with [val = "Cost"]):
    group and sum, turn the month labels into ordered categories, sort. *)
Definition monthly_view (df : DataFrame) (val : string) : option DataFrame :=
  grouped ← groupby_sum df "Month" val;
  labels ← getitem grouped "Month";
  recoded ← setitem grouped "Month" (pd_Categorical labels month_order);
  sort_values recoded "Month".

Definition monthly_data (df : DataFrame) : option DataFrame :=
  monthly_view df "UnitsConsumed".

Definition monthly_cost (df : DataFrame) : option DataFrame :=
  monthly_view df "Cost".

(** ** Views per unit (lines 186 and 227) *)

Definition unit_data (df : DataFrame) : option DataFrame :=
  groupby_sum df "UnitName" "UnitsConsumed" ≫= λ g, sort_values g "UnitsConsumed".

Definition unit_cost (df : DataFrame) : option DataFrame :=
  groupby_sum df "UnitName" "Cost".

(** ** CSV text: [DataFrame.to_csv(index=False)] and [pd.read_csv]

    Both are library code. The writer follows Python's [csv] module with
    pandas' defaults (comma, double quote, minimal quoting, line feed);
    the reader follows pandas' C tokenizer and its default conversion of
    columns (missing-value markers, then numbers, then booleans, then
    text). What the model leaves out is said at each definition. *)

Definition comma : ascii := ascii_of_nat 44.
Definition quotechar : ascii := ascii_of_nat 34.
Definition LF : ascii := ascii_of_nat 10.
Definition CR : ascii := ascii_of_nat 13.

(** The decimal text of a number: sign, integer digits, a point and the
    fractional digits (at least one, at most 17). It is the text Python
    prints for the float when the value is a decimal fraction of moderate
    size; the exponent notation of very large or small floats and the
    rounding of other values to the shortest text are not modelled. *)
Fixpoint fraction_digits (fuel : nat) (r d : N) : list ascii :=
  match fuel with
  | 0 => []
  | S fuel' =>
      ascii_of_N (48 + r * 10 / d)
      :: (if (r * 10 mod d =? 0)%N then [] else fraction_digits fuel' (r * 10 mod d) d)
  end.

Definition float_repr (x : Qc) : string :=
  let n := Z.abs_N (Qnum x) in
  let d := Npos (Qden x) in
  (if decide (Qnum x < 0)%Z then "-" else EmptyString)
  +:+ pretty (n / d)%N +:+ "."
  +:+ string_of_list_ascii (fraction_digits 17 (n mod d)%N d).

(** The text of a cell in the file: missing values are empty. *)
Definition cell_text (c : Cell) : string :=
  match c with
  | NaN => EmptyString
  | Str s => s
  | Num x => float_repr x
  | Bool b => if b then "True" else "False"
  | Cat _ label => label
  end.

Definition needs_quotes (f : list ascii) : bool :=
  bool_decide (Exists (λ c, c ∈ [comma; quotechar; LF; CR]) f).

Definition escape_quotes (f : list ascii) : list ascii :=
  f ≫= λ c, if decide (c = quotechar) then [quotechar; quotechar] else [c].

(** One field, quoted only when it has to be. *)
Definition csv_field (f : list ascii) : list ascii :=
  if needs_quotes f then quotechar :: escape_quotes f ++ [quotechar] else f.

Fixpoint join_fields (fs : list (list ascii)) : list ascii :=
  match fs with
  | [] => []
  | [f] => f
  | f :: fs' => f ++ comma :: join_fields fs'
  end.

(** One line of the file. A row that is a single empty field is written
    as a pair of quotes, so that the line is not blank. *)
Definition csv_line (fields : list (list ascii)) : list ascii :=
  match fields with
  | [ [] ] => [quotechar; quotechar; LF]
  | _ => join_fields (csv_field <$> fields) ++ [LF]
  end.

Definition csv_text (lines : list (list (list ascii))) : list ascii :=
  lines ≫= csv_line.

Definition row_texts (r : list Cell) : list (list ascii) :=
  (λ c, list_ascii_of_string (cell_text c)) <$> r.

(** [df.to_csv(index=False)]: the header, then one line per row. *)
Definition to_csv (df : DataFrame) : string :=
  string_of_list_ascii
    (csv_text ((list_ascii_of_string <$> columns df) :: (row_texts <$> rows df))).

(** The states of the tokenizer. *)
Inductive TokenizerState :=
  | START_RECORD
  | START_FIELD
  | IN_FIELD
  | IN_QUOTED_FIELD
  | QUOTE_IN_QUOTED_FIELD
  | EAT_CRNL.

(** The tokenizer: its state, and the field, the record and the records
    read so far (each most recent first). *)
Record Tokenizer := mkTokenizer {
  tok_state : TokenizerState;
  tok_field : list ascii;
  tok_record : list (list ascii);
  tok_records : list (list (list ascii))
}.

Definition push_char (c : ascii) (st : TokenizerState) (t : Tokenizer) : Tokenizer :=
  mkTokenizer st (c :: tok_field t) (tok_record t) (tok_records t).

Definition enter (st : TokenizerState) (t : Tokenizer) : Tokenizer :=
  mkTokenizer st (tok_field t) (tok_record t) (tok_records t).

Definition end_field (st : TokenizerState) (t : Tokenizer) : Tokenizer :=
  mkTokenizer st [] (reverse (tok_field t) :: tok_record t) (tok_records t).

Definition end_line (t : Tokenizer) : Tokenizer :=
  mkTokenizer START_RECORD [] [] (reverse (tok_record t) :: tok_records t).

(** A character at the start of a record or of a field. At the start of
    a record a line end is a blank line and is skipped. *)
Definition start_step (t : Tokenizer) (c : ascii) : Tokenizer :=
  if decide (c = LF) then
    match tok_state t with
    | START_RECORD => t
    | _ => end_line (end_field START_RECORD t)
    end
  else if decide (c = CR) then
    match tok_state t with
    | START_RECORD => t
    | _ => end_field EAT_CRNL t
    end
  else if decide (c = quotechar) then enter IN_QUOTED_FIELD t
  else if decide (c = comma) then end_field START_FIELD t
  else push_char c IN_FIELD t.

(** A character after the first of a field, or after a closing quote. *)
Definition field_step (t : Tokenizer) (c : ascii) : Tokenizer :=
  if decide (c = LF) then end_line (end_field START_RECORD t)
  else if decide (c = CR) then end_field EAT_CRNL t
  else if decide (c = comma) then end_field START_FIELD t
  else push_char c IN_FIELD t.

Definition tokenizer_step (t : Tokenizer) (c : ascii) : Tokenizer :=
  match tok_state t with
  | START_RECORD | START_FIELD => start_step t c
  | IN_FIELD => field_step t c
  | IN_QUOTED_FIELD =>
      if decide (c = quotechar) then enter QUOTE_IN_QUOTED_FIELD t
      else push_char c IN_QUOTED_FIELD t
  | QUOTE_IN_QUOTED_FIELD =>
      if decide (c = quotechar) then push_char c IN_QUOTED_FIELD t
      else field_step t c
  | EAT_CRNL =>
      if decide (c = LF) then end_line t else start_step (end_line t) c
  end.

(** The end of the input: a last line without line end is completed;
    [None] when the input ends inside a quoted field. *)
Definition tokenizer_finish (t : Tokenizer) : option (list (list (list ascii))) :=
  match tok_state t with
  | START_RECORD => Some (reverse (tok_records t))
  | IN_QUOTED_FIELD => None
  | EAT_CRNL => Some (reverse (tok_records (end_line t)))
  | START_FIELD | IN_FIELD | QUOTE_IN_QUOTED_FIELD =>
      Some (reverse (tok_records (end_line (end_field START_RECORD t))))
  end.

Definition tokenize (input : list ascii) : option (list (list (list ascii))) :=
  tokenizer_finish (foldl tokenizer_step (mkTokenizer START_RECORD [] [] []) input).

(** The texts that [read_csv] takes for a missing value (its default
    [na_values]); the first is the empty text. *)
Definition na_values : list string :=
  [ EmptyString; "#N/A"; "#N/A N/A"; "#NA"; "-1.#IND"; "-1.#QNAN"; "-NaN";
    "-nan"; "1.#IND"; "1.#QNAN"; "<NA>"; "N/A"; "NA"; "NULL"; "NaN"; "None";
    "n/a"; "nan"; "null" ].

Definition true_values : list string := ["True"; "TRUE"; "true"].
Definition false_values : list string := ["False"; "FALSE"; "false"].

Definition is_digit (c : ascii) : bool :=
  (48 <=? N_of_ascii c)%N && (N_of_ascii c <=? 57)%N.

Definition digits_value (ds : list ascii) : N :=
  foldl (λ acc c, acc * 10 + (N_of_ascii c - 48))%N 0%N ds.

(** The leading digits of a text, and what follows them. *)
Fixpoint leading_digits (l : list ascii) : list ascii * list ascii :=
  match l with
  | c :: l' =>
      if is_digit c
      then let '(ds, rest) := leading_digits l' in (c :: ds, rest)
      else ([], l)
  | [] => ([], [])
  end.

(** An unsigned decimal numeral: digits, optionally a point and more
    digits, with at least one digit in all. *)
Definition parse_unsigned (l : list ascii) : option Qc :=
  let '(ip, rest) := leading_digits l in
  match rest with
  | [] => if decide (ip = []) then None
          else Some (Qc_of_Z (Z.of_N (digits_value ip)))
  | c :: fp =>
      if decide (c = "."%char ∧ Forall (λ c, is_digit c = true) fp ∧ ip ++ fp ≠ [])
      then Some (Qc_of_Z (Z.of_N (digits_value (ip ++ fp)))
                 / Qc_of_Z (10 ^ Z.of_nat (length fp)))%Qc
      else None
  end.

(** The numbers the reader recognises, as far as the model goes: an
    optional sign and a decimal numeral. Exponents, infinities and
    surrounding blanks, which pandas also accepts, are not modelled. *)
Definition parse_number (t : string) : option Qc :=
  match list_ascii_of_string t with
  | c :: l =>
      if decide (c = "-"%char) then Qcopp <$> parse_unsigned l
      else if decide (c = "+"%char) then parse_unsigned l
      else parse_unsigned (c :: l)
  | [] => None
  end.

Inductive ColumnKind := Numeric | Boolean | Text.

(** What a column of texts is read as: numbers when every text that is
    not a missing-value marker is a number, booleans when every text is a
    boolean word, text otherwise. *)
Definition column_kind (texts : list string) : ColumnKind :=
  let present := filter (λ t, t ∉ na_values) texts in
  if bool_decide (Forall (λ t, is_Some (parse_number t)) present) then Numeric
  else if bool_decide (Forall (λ t, t ∈ true_values ++ false_values) texts) then Boolean
  else Text.

Definition convert_cell (k : ColumnKind) (t : string) : Cell :=
  if decide (t ∈ na_values) then NaN
  else match k with
       | Numeric => match parse_number t with Some x => Num x | None => NaN end
       | Boolean => Bool (bool_decide (t ∈ true_values))
       | Text => Str t
       end.

(** Why [read_csv] raises. *)
Inductive ReadError :=
  | EmptyDataError
  | EOF_inside_string
  | Too_many_fields (expected saw : nat).

Global Instance ReadError_eq_dec : EqDecision ReadError.
Proof. solve_decision. Defined.

(** A record of the file as a row of the frame: short records are filled
    up with missing values. *)
Definition pad_record (n : nat) (r : list string) : list string :=
  r ++ replicate (n - length r) EmptyString.

(** [pd.read_csv(file)] with its defaults, on the content of the file:
    the first record names the columns, every other record is a row. A
    record longer than the header raises. The renaming of repeated or
    empty column names and the use of a first unnamed column as index are
    not modelled. *)
Definition read_csv (content : string) : ReadError + DataFrame :=
  match tokenize (list_ascii_of_string content) with
  | None => inl EOF_inside_string
  | Some [] => inl EmptyDataError
  | Some (header :: body) =>
      let width := length header in
      match list_find (λ r, width < length r) body with
      | Some (_, r) => inl (Too_many_fields width (length r))
      | None =>
          let texts := (λ r, pad_record width (string_of_list_ascii <$> r)) <$> body in
          let kinds := (λ j, column_kind ((λ r, nth j r EmptyString) <$> texts))
                       <$> seq 0 width in
          inr (mkDataFrame (string_of_list_ascii <$> header)
                 ((λ r, zip_with convert_cell kinds r) <$> texts))
      end
  end.

(** ** Tables that survive the trip through CSV text *)

Definition lower (c : ascii) : ascii :=
  let n := N_of_ascii c in
  if (65 <=? n)%N && (n <=? 90)%N then ascii_of_N (n + 32) else c.

Fixpoint lowercase (s : string) : string :=
  match s with
  | EmptyString => EmptyString
  | String c s' => String (lower c) (lowercase s')
  end.

(** A text that pandas may read as a number, by a test on the safe side:
    it begins with a digit, a sign, a point or a blank, or it spells
    [inf] or [infinity] in some mix of cases. *)
Definition looks_numeric (s : string) : bool :=
  match s with
  | EmptyString => false
  | String c _ =>
      is_digit c || bool_decide (c ∈ ["+"; "-"; "."]%char) || (N_of_ascii c <=? 32)%N
  end
  || bool_decide (lowercase s ∈ ["inf"; "infinity"]).

(** A label that [read_csv] gives back as the text it is: not a marker of
    a missing value, not a boolean word, not something that may be read
    as a number; and without a carriage return, which older versions of
    the writer do not quote. *)
Definition plain_label (s : string) : Prop :=
  (s ∉ na_values)
  ∧ (s ∉ true_values ++ false_values)
  ∧ looks_numeric s = false
  ∧ (CR ∉ list_ascii_of_string s).

Global Instance plain_label_dec s : Decision (plain_label s).
Proof. unfold plain_label; apply _. Defined.

(** A number whose decimal text reads back as the same number. In
    Python every float has this property by the choice of the text; with
    exact numbers it holds of the decimal fractions with at most 17
    fractional digits, among them every value rounded to two decimals. *)
Definition number_text_ok (x : Qc) : Prop :=
  parse_number (float_repr x) = Some x.

Global Instance number_text_ok_dec x : Decision (number_text_ok x).
Proof. unfold number_text_ok; apply _. Defined.

Definition csv_safe (r : UsageRecord) : Prop :=
  plain_label (Month r) ∧ plain_label (UnitName r)
  ∧ number_text_ok (UnitsConsumed r) ∧ number_text_ok (Cost r).

Global Instance csv_safe_dec r : Decision (csv_safe r).
Proof. unfold csv_safe; apply _. Defined.


(** A unit that is called NA. *)
Definition unit_called_NA : list UsageRecord :=
  [mkUsageRecord "January" "NA" (lit 100) (lit 15)].

(** ** The world of one run of the script *)

(** The state of [np.random]. What the generator will produce is not
    known to the program: [entropy] is the sequence of raw variates still
    to come and every statement about generated data quantifies over it. *)
Record RandomState := mkRandomState {
  entropy : nat → Qc;
  cursor : nat
}.

(** An f-string with one number in it, by its parts: [f"${x:,.2f}"] is
    [f_float "$" x true 2 ""]. The digits are not rendered. *)
Inductive FString :=
  | f_float (prefix : string) (x : Qc) (grouping : bool) (decimals : nat) (suffix : string)
  | f_int (n : nat).

(** A plotly express figure: its kind, the frame it was given (by value,
    as it was when the figure was made) and its axes and title. *)
Record Chart := mkChart {
  chart_kind : string;
  chart_data : DataFrame;
  chart_x : string;
  chart_y : string;
  chart_title : string
}.

(** The summary report, by the values its text is formatted from. *)
Record Report := mkReport {
  generated_on : string;
  report_total_units : Qc;
  report_total_cost : Qc;
  report_avg_cost_per_unit : Qc;
  report_num_departments : nat;
  top_consuming_departments : DataFrame;
  highest_consumption_month : Cell;
  lowest_consumption_month : Cell
}.

(** A Streamlit call that draws something, as recorded on the page.
    Layout calls ([st.columns], [set_page_config]) are not recorded. *)
Inductive Widget :=
  | st_title (text : string)
  | st_markdown (text : string)
  | st_subheader (text : string)
  | st_dataframe (data : DataFrame)
  | st_error (text : string)
  | st_metric (label : string) (value : FString)
  | st_plotly_chart (fig : Chart)
  | st_download_button (label data file_name mime : string)
  | st_download_report (label : string) (data : Report) (file_name mime : string)
  | st_sidebar_header (text : string)
  | st_sidebar_subheader (text : string)
  | st_sidebar_success (text : string)
  | st_sidebar_info (text : string)
  | st_sidebar_error_reading_file (e : ReadError).

Record World := mkWorld {
  heap : list DataFrame;
  manual_data : option (list UsageRecord);
  random_state : RandomState;
  screen : list Widget
}.

(** How a piece of the script ends: normally, by [st.stop()], or by an
    exception nobody catches. *)
Inductive Result (A : Type) :=
  | Ok (a : A)
  | Stopped
  | Raised.
Global Arguments Ok {A} a.
Global Arguments Stopped {A}.
Global Arguments Raised {A}.

Definition M (A : Type) : Type := World → Result A * World.

Global Instance M_ret : MRet M := λ A a w, (Ok a, w).

Global Instance M_bind : MBind M := λ A B k m w,
  match m w with
  | (Ok a, w') => k a w'
  | (Stopped, w') => (Stopped, w')
  | (Raised, w') => (Raised, w')
  end.

(** A pandas call that may raise. *)
Definition py {A} (o : option A) : M A := λ w,
  match o with
  | Some a => (Ok a, w)
  | None => (Raised, w)
  end.

(** A new DataFrame object; the result is its address. *)
Definition new_frame (df : DataFrame) : M nat := λ w,
  (Ok (length (heap w)),
   mkWorld (heap w ++ [df]) (manual_data w) (random_state w) (screen w)).

(** The DataFrame object at an address. *)
Definition frame (l : nat) : M DataFrame := λ w, py (heap w !! l) w.

(** Overwriting the object at an address. *)
Definition store_frame (l : nat) (df : DataFrame) : M unit := λ w,
  (Ok (), mkWorld (<[l:=df]> (heap w)) (manual_data w) (random_state w) (screen w)).

Definition show (x : Widget) : M unit := λ w,
  (Ok (), mkWorld (heap w) (manual_data w) (random_state w) (screen w ++ [x])).

(** [st.stop()] *)
Definition st_stop {A} : M A := λ w, (Stopped, w).

Definition next_variate : M Qc := λ w,
  let g := random_state w in
  (Ok (entropy g (cursor g)),
   mkWorld (heap w) (manual_data w) (mkRandomState (entropy g) (S (cursor g))) (screen w)).

(** [np.random.normal(loc, scale)]: any value can come out. *)
Definition np_random_normal (loc scale : Qc) : M Qc :=
  z ← next_variate; mret (loc + scale * z)%Qc.

(** [np.random.uniform(low, high)]: [low + (high - low) * u] for a [u]
    of the half-open unit interval, here the fractional part of the next
    raw variate. *)
Definition np_random_uniform (low high : Qc) : M Qc :=
  x ← next_variate;
  let u := (x - Qc_of_Z (Qfloor x))%Qc in
  mret (low + (high - low) * u)%Qc.

(** A [for] loop that carries the value it builds. *)
Fixpoint for_each {A B} (l : list A) (body : B → A → M B) (acc : B) : M B :=
  match l with
  | [] => mret acc
  | x :: l' => acc' ← body acc x; for_each l' body acc'
  end.

(** ** Sample data (lines 29-51) *)

Definition sample_months : list string :=
  ["January"; "February"; "March"; "April"; "May"; "June";
   "July"; "August"; "September"; "October"; "November"; "December"].

Definition sample_units : list string :=
  ["Kitchen"; "Living Room"; "Bedroom"; "Office"; "Garage"].

(** The body of the inner loop, up to the dictionary it appends. *)
Definition sample_record (month unit_ : string) : M UsageRecord :=
  base_consumption ← np_random_normal (lit 100) (lit 20);
  cost_per_unit ← np_random_uniform (lit 0.10) (lit 0.15);
  let consumption := py_max (lit 50) base_consumption in
  let cost := (consumption * cost_per_unit)%Qc in
  mret (mkUsageRecord month unit_ (round consumption 2) (round cost 2)).

Definition sample_rows : M (list UsageRecord) :=
  for_each sample_months (λ data month,
    for_each sample_units (λ data unit_,
      r ← sample_record month unit_; mret (data ++ [r])) data) [].

Definition create_sample_data : M nat :=
  data ← sample_rows; new_frame (pd_DataFrame data).

(** ** The script *)

Inductive InputMethod := UploadCSVFile | ManualDataEntry | UseSampleData.
Inductive AnalysisView := MonthlySummary | DepartmentSummary | DetailedRecords.

(** What the user has put into the widgets for this run, and the clock. *)
Record Inputs := mkInputs {
  input_method : InputMethod;
  uploaded_file : option string;
  form_month : string;
  form_unit_name : string;
  form_units_consumed : Qc;
  form_cost : Qc;
  form_submitted : bool;
  analysis_option : AnalysisView;
  generate_summary_report : bool;
  now_compact : string;
  now_text : string
}.

(** A pandas computation on the object at an address. *)
Definition on_frame {A} (l : nat) (f : DataFrame → option A) : M A :=
  d ← frame l; py (f d).

(** A pandas call that returns a new DataFrame object. *)
Definition derive (l : nat) (f : DataFrame → option DataFrame) : M nat :=
  d ← on_frame l f; new_frame d.

(** A pandas statement that changes the object at an address. *)
Definition mutate (l : nat) (f : DataFrame → option DataFrame) : M unit :=
  d ← on_frame l f; store_frame l d.

(** Lines 85-96: the form of the manual entry. An entry is added only
    when the form was submitted with a unit name that is not empty. *)
Definition manual_entry (inp : Inputs) : M unit := λ w,
  if form_submitted inp && negb (String.eqb (form_unit_name inp) EmptyString) then
    let entries := default [] (manual_data w) in
    let entry := mkUsageRecord (form_month inp) (form_unit_name inp)
                   (form_units_consumed inp) (form_cost inp) in
    show (st_sidebar_success "Entry added!")
      (mkWorld (heap w) (Some (entries ++ [entry])) (random_state w) (screen w))
  else (Ok (), w).

(** Lines 98-102: the manual entries if there are any, sample data
    otherwise. *)
Definition manual_or_sample : M nat := λ w,
  match manual_data w with
  | Some (r :: data) => new_frame (pd_DataFrame (r :: data)) w
  | _ => create_sample_data w
  end.

(** Lines 54-106: the table of this run, as the address of a new
    DataFrame object. *)
Definition load_data (inp : Inputs) : M nat :=
  match input_method inp with
  | UploadCSVFile =>
      match uploaded_file inp with
      | Some file =>
          match read_csv file with
          | inr d =>
              df ← new_frame d;
              show (st_sidebar_success "File uploaded successfully!");;
              mret df
          | inl e =>
              show (st_sidebar_error_reading_file e);;
              create_sample_data
          end
      | None =>
          show (st_sidebar_info "Please upload a CSV file or use sample data");;
          create_sample_data
      end
  | ManualDataEntry =>
      show (st_sidebar_subheader "Enter Data Manually");;
      manual_entry inp;;
      manual_or_sample
  | UseSampleData =>
      df ← create_sample_data;
      show (st_sidebar_info "Using sample data for demonstration");;
      mret df
  end.

(** Lines 113-116: the check of the columns. *)
Definition validate (df : nat) : M unit :=
  d ← frame df;
  if forallb (has_column d) required_columns then mret ()
  else
    show (st_error ("CSV file must contain columns: "
                    +:+ String.concat ", " required_columns));;
    st_stop.

(** Lines 161-167 and 210-212: a monthly view, statement by statement. *)
Definition monthly_steps (df : nat) (val : string) : M nat :=
  grouped ← derive df (λ d, groupby_sum d "Month" val);
  labels ← on_frame grouped (λ d, getitem d "Month");
  mutate grouped (λ d, setitem d "Month" (pd_Categorical labels month_order));;
  derive grouped (λ d, sort_values d "Month").

Definition chart (kind : string) (l : nat) (x y title : string) : M unit :=
  d ← frame l; show (st_plotly_chart (mkChart kind d x y title)).

(** The statistics and the column names of the two summaries (lines
    245-249 and 253-258). *)
Definition monthly_summary_stats : list (string * Agg) :=
  [("UnitsConsumed", agg_sum); ("UnitsConsumed", agg_mean);
   ("Cost", agg_sum); ("Cost", agg_mean)].

Definition monthly_summary_columns : list string :=
  ["Total Units"; "Avg Units"; "Total Cost"; "Avg Cost"].

Definition dept_summary_stats : list (string * Agg) :=
  [("UnitsConsumed", agg_sum); ("UnitsConsumed", agg_mean);
   ("UnitsConsumed", agg_max); ("UnitsConsumed", agg_min);
   ("Cost", agg_sum); ("Cost", agg_mean);
   ("Cost", agg_max); ("Cost", agg_min)].

Definition dept_summary_columns : list string :=
  ["Total Units"; "Avg Units"; "Max Units"; "Min Units";
   "Total Cost"; "Avg Cost"; "Max Cost"; "Min Cost"].

(** Lines 244-262: the table of the detailed analysis. *)
Definition detailed_analysis (df : nat) (inp : Inputs) : M unit :=
  match analysis_option inp with
  | MonthlySummary =>
      monthly_summary ← derive df (λ d,
        groupby_agg d "Month" monthly_summary_stats monthly_summary_columns);
      d ← frame monthly_summary; show (st_dataframe d)
  | DepartmentSummary =>
      dept_summary ← derive df (λ d,
        groupby_agg d "UnitName" dept_summary_stats dept_summary_columns);
      d ← frame dept_summary; show (st_dataframe d)
  | DetailedRecords =>
      d ← frame df; show (st_dataframe d)
  end.

(** Lines 280-304: the summary report, when its button was pressed. *)
Definition summary_report (inp : Inputs) (k : KPIs) (unit_data monthly_data : nat) : M unit :=
  if generate_summary_report inp then
    top ← derive unit_data (λ d, nlargest 3 d "UnitsConsumed");
    top ← on_frame top (λ d, select_columns d ["UnitName"; "UnitsConsumed"]);
    highest ← on_frame monthly_data (λ d,
      s ← getitem d "UnitsConsumed"; i ← idxmax s; loc d i "Month");
    lowest ← on_frame monthly_data (λ d,
      s ← getitem d "UnitsConsumed"; i ← idxmin s; loc d i "Month");
    show (st_download_report "Download Summary Report"
            (mkReport (now_text inp) (kpi_total_units k) (kpi_total_cost k)
               (kpi_avg_cost_per_unit k) (kpi_num_departments k)
               top highest lowest)
            ("electricity_summary_" +:+ now_compact inp +:+ ".txt") "text/plain")
  else mret ().

(** Lines 108-110: the preview of the table. *)
Definition data_preview (df : nat) : M unit :=
  show (st_subheader "Data Preview");;
  d ← frame df; show (st_dataframe d).

(** Lines 118-154: the four indicators, computed and shown. *)
Definition key_performance_indicators (df : nat) : M KPIs :=
  total_units ← on_frame df total_units;
  total_cost ← on_frame df total_cost;
  avg_cost_per_unit ← py (avg_cost_per_unit total_cost total_units);
  num_departments ← on_frame df num_departments;
  show (st_subheader "📊 Key Performance Indicators (KPIs)");;
  show (st_metric "Total Units Consumed" (f_float EmptyString total_units true 2 " kWh"));;
  show (st_metric "Total Cost" (f_float "$" total_cost true 2 EmptyString));;
  show (st_metric "Average Cost per kWh" (f_float "$" avg_cost_per_unit false 3 EmptyString));;
  show (st_metric "Number of Units/Departments" (f_int num_departments));;
  mret (mkKPIs total_units total_cost avg_cost_per_unit num_departments).

(** Lines 156-235: the four charts. The result is the pair of the
    addresses of [monthly_data] and [unit_data], which the summary report
    reads again. *)
Definition visualizations (df : nat) : M (nat * nat) :=
  show (st_subheader "📈 Visualizations");;
  show (st_subheader "Monthly Consumption Trend");;
  monthly_data ← monthly_steps df "UnitsConsumed";
  chart "line" monthly_data "Month" "UnitsConsumed" "Monthly Electricity Consumption Trend";;
  show (st_subheader "Usage by Department/Unit");;
  grouped ← derive df (λ d, groupby_sum d "UnitName" "UnitsConsumed");
  unit_data ← derive grouped (λ d, sort_values d "UnitsConsumed");
  chart "bar" unit_data "UnitsConsumed" "UnitName" "Electricity Consumption by Department/Unit";;
  show (st_subheader "Cost Analysis");;
  monthly_cost ← monthly_steps df "Cost";
  chart "line" monthly_cost "Month" "Cost" "Monthly Cost Trend";;
  unit_cost ← derive df (λ d, groupby_sum d "UnitName" "Cost");
  chart "pie" unit_cost "UnitName" "Cost" "Cost Distribution by Department/Unit";;
  mret (monthly_data, unit_data).

(** Lines 264-276: the table as CSV text, offered for download. *)
Definition export_csv (df : nat) (inp : Inputs) : M unit :=
  csv_data ← on_frame df (λ d, Some (to_csv d));
  show (st_download_button "Download Data as CSV" csv_data
          ("electricity_consumption_" +:+ now_compact inp +:+ ".csv") "text/csv").

(** Lines 118-308: everything after the validation. *)
Definition analysis (df : nat) (inp : Inputs) : M unit :=
  k ← key_performance_indicators df;
  views ← visualizations df;
  show (st_subheader "Detailed Analysis");;
  detailed_analysis df inp;;
  show (st_subheader "📥 Export Data");;
  export_csv df inp;;
  summary_report inp k views.2 views.1;;
  show (st_markdown "---");;
  show (st_markdown "**Dashboard created with Streamlit for Electricity Consumption Analysis**").

(** Lines 108-308: everything after the table has been loaded. *)
Definition dashboard (df : nat) (inp : Inputs) : M unit :=
  data_preview df;;
  validate df;;
  analysis df inp.

(** One run of the script. *)
Definition main (inp : Inputs) : M unit :=
  show (st_title "⚡ Electricity Consumption Dashboard");;
  show (st_markdown "Track electricity usage and costs per household or department");;
  show (st_sidebar_header "Data Input Options");;
  df ← load_data inp;
  dashboard df inp.

(** [m] leaves every DataFrame object that exists before it as it is:
    whatever the outcome, each address holds afterwards what it held
    before. *)
Definition leaves_tables_unchanged {A} (m : M A) : Prop :=
  ∀ (w : World) (l : nat) (d : DataFrame),
    heap w !! l = Some d → heap (m w).2 !! l = Some d.

(** The invariant behind it: the objects [H] stay where they are at the
    bottom of the heap, what has been drawn ([S]) stays on the page, and
    a value that [m] returns satisfies [fresh] (for an address: it lies
    above [H]). *)
Definition keeps (H : list DataFrame) (S : list Widget) {A} (m : M A)
    (fresh : A → Prop) : Prop :=
  ∀ w : World, H `prefix_of` heap w → S `prefix_of` screen w →
    H `prefix_of` heap (m w).2 ∧ S `prefix_of` screen (m w).2
    ∧ ∀ a, (m w).1 = Ok a → fresh a.


Definition above (H : list DataFrame) (l : nat) : Prop := length H ≤ l.

Definition any {A} (a : A) : Prop := True.

(** Rows of a derived view: a label and a number. *)
Definition value_rows (rws : list (list Cell)) : Prop :=
  Forall (λ r, ∃ c x, r = [c; Num x]) rws.

(** Every object of [w] is, unchanged, an object of [w']. *)
Definition grows (w w' : World) : Prop :=
  ∀ l d, heap w !! l = Some d → heap w' !! l = Some d.

(** The message of the failed validation (line 115). *)
Definition missing_columns_message : string :=
  "CSV file must contain columns: " +:+ String.concat ", " required_columns.

(** The text [msg] contains the name [c]. *)
Definition mentions (msg c : string) : Prop :=
  ∃ before after, msg = before +:+ c +:+ after.

(** The dictionary that a submitted form adds to the session. *)
Definition form_entry (inp : Inputs) : UsageRecord :=
  mkUsageRecord (form_month inp) (form_unit_name inp)
    (form_units_consumed inp) (form_cost inp).

(** The world after something more has been drawn. *)
Definition drawn (w : World) (ws : list Widget) : World :=
  mkWorld (heap w) (manual_data w) (random_state w) (screen w ++ ws).

(** An uploaded file without the [Cost] column. *)
Definition file_without_Cost : string :=
  "Month,UnitName,UnitsConsumed" +:+ String LF
  ("January,Kitchen,100.0" +:+ String LF EmptyString).

Definition upload (file : string) : Inputs :=
  mkInputs UploadCSVFile (Some file) "January" EmptyString 0%Qc 0%Qc false
    DetailedRecords true "20240101_120000" "2024-01-01 12:00:00".

(** ** Statements about runs *)

(** [m], run in [w], ends normally, and [Q] holds of its value and of the
    world it leaves. *)
Definition returns {A} (m : M A) (w : World) (Q : A → World → Prop) : Prop :=
  ∃ a w', m w = (Ok a, w') ∧ Q a w'.

(** Only the random generator has moved between [w] and [w']. *)
Definition only_random_moved (w w' : World) : Prop :=
  heap w' = heap w ∧ manual_data w' = manual_data w ∧ screen w' = screen w.

(** What the generator promises of one record, whatever was drawn: the
    consumption before rounding is at least 50, the rate lies between 0.10
    and 0.15, the stored values are the consumption and the consumption
    times the rate, each rounded to two decimals. *)
Definition generated_record (r : UsageRecord) : Prop :=
  ∃ consumption rate : Qc,
    (lit 50 ≤ consumption)%Qc
    ∧ (lit 0.10 ≤ rate)%Qc ∧ (rate ≤ lit 0.15)%Qc
    ∧ UnitsConsumed r = round consumption 2
    ∧ Cost r = round (consumption * rate) 2.

(** The month and unit labels of a list of records, in order. *)
Definition record_labels (rs : list UsageRecord) : list (string * string) :=
  (λ r, (Month r, UnitName r)) <$> rs.

(** A generated record, with the two bounds that follow for what is
    stored. *)
Definition sample_record_ok (r : UsageRecord) : Prop :=
  generated_record r ∧ (lit 50 ≤ UnitsConsumed r)%Qc ∧ (0 ≤ Cost r)%Qc.

(** A world to run examples in: nothing allocated, nothing drawn, and a
    generator whose raw variates are 0, 1/3, 2/3, 1, ... *)
Definition example_world : World :=
  mkWorld [] None (mkRandomState (λ n, (Qc_of_Z (Z.of_nat n) / lit 3)%Qc) 0) [].

(** ** Examples of the specification *)

Definition example_records : list UsageRecord :=
  [ mkUsageRecord "January" "Kitchen" (lit 100) (lit 15);
    mkUsageRecord "January" "Office" (lit 50) (lit 7.5) ].

(** The sum of a numeric field over all records, as the specification
    writes it. *)
Definition sum_over (f : UsageRecord → Qc) (rs : list UsageRecord) : Qc :=
  foldr (λ r acc, (f r + acc)%Qc) 0%Qc rs.

(** The calendar position of a month name (January is 0); a name that is
    not a calendar month has none. *)
Definition month_index (m : string) : option nat := index_of m month_order.

(** The cell that [pd.Categorical] makes of a month label. *)
Definition month_category (m : string) : Cell :=
  match month_index m with
  | Some i => Cat i m
  | None => NaN
  end.

(** The records of one month. *)
Definition in_month (m : string) (rs : list UsageRecord) : list UsageRecord :=
  filter (λ r, Month r = m) rs.

(** The row of a monthly view for the month label [m]. *)
Definition monthly_row (f : UsageRecord → Qc) (rs : list UsageRecord) (m : string) : list Cell :=
  [month_category m; Num (sum_over f (in_month m rs))].

(** Python's order on strings (code points, here bytes). *)
Definition string_le (s t : string) : Prop := String.leb s t = true.

Global Instance string_le_dec : RelDecision string_le.
Proof. intros s t; unfold string_le; apply _. Defined.

(** The labels of a text column of a table ([g] reads the column off a
    record) as [groupby] lists them: distinct, ascending as strings. *)
Definition key_labels (g : UsageRecord → string) (rs : list UsageRecord) : list string :=
  merge_sort string_le (remove_dups (g <$> rs)).

Definition month_labels (rs : list UsageRecord) : list string :=
  key_labels Month rs.

(** The row of [groupby(...).sum()] for the label [k]. *)
Definition group_row (g : UsageRecord → string) (f : UsageRecord → Qc)
    (rs : list UsageRecord) (k : string) : list Cell :=
  [Str k; Num (sum_over f (filter (λ r, g r = k) rs))].

Definition recognised (m : string) : Prop := is_Some (month_index m).

Global Instance recognised_dec m : Decision (recognised m).
Proof. unfold recognised; apply _. Defined.

(** The order on month labels that sorting the categorical column uses. *)
Definition month_le (a b : string) : Prop :=
  cell_le (month_category a) (month_category b).

Global Instance month_le_dec : RelDecision month_le.
Proof. intros a b; unfold month_le; apply _. Defined.

(** The order of the labels after [sort_values]: calendar months first,
    in calendar order, then the other labels as they were. *)
Definition calendar_sorted (ms : list string) : list string :=
  merge_sort month_le (filter recognised ms) ++ filter (λ m, ¬ recognised m) ms.

(** Strictly earlier in the calendar. *)
Definition calendar_lt (a b : string) : Prop :=
  ∃ i j, month_index a = Some i ∧ month_index b = Some j ∧ i < j.

(** A table with thirteen different month labels: the twelve calendar
    months and one label that is not a calendar month. *)
Definition thirteen_labels : list UsageRecord :=
  (λ m, mkUsageRecord m "Kitchen" (lit 1) (lit 0.1)) <$> (month_order ++ ["Smarch"]).

(** The image under [f] of the stack of runs that [merge_sort] keeps. *)
Definition stack_fmap {A B} (f : A → B) (st : list (option (list A))) : list (option (list B)) :=
  (λ o : option (list A), (λ l : list A, f <$> l) <$> o) <$> st.

(** * The views, the report, the page and the runs, as functions of the records *)

(** The rows of [unit_data], largest consumption first. *)
Definition by_consumption (rs : list UsageRecord) : list (list Cell) :=
  merge_sort (row_ge 1)
    (merge_sort (row_le 1)
       (group_row UnitName UnitsConsumed rs <$> key_labels UnitName rs)).

(** The summed consumption of the month [m]. *)
Definition month_total (rs : list UsageRecord) (m : string) : Qc :=
  sum_over UnitsConsumed (in_month m rs).

(** [y], at position [j] of [l], is the first best number of [l]: no
    number of [l] is better, and every number before it is worse. *)
Definition first_best (ge : relation Qc) (l : list Qc) (j : nat) (y : Qc) : Prop :=
  l !! j = Some y
  ∧ Forall (λ x, ge y x) l
  ∧ ∀ k x, k < j → l !! k = Some x → ¬ ge x y.

(** Lines 295 and 296: the month of the summary report with the highest
    and with the lowest consumption. *)
Definition highest_month (monthly_data : DataFrame) : option Cell :=
  s ← getitem monthly_data "UnitsConsumed"; i ← idxmax s; loc monthly_data i "Month".

Definition lowest_month (monthly_data : DataFrame) : option Cell :=
  s ← getitem monthly_data "UnitsConsumed"; i ← idxmin s; loc monthly_data i "Month".







(** A text without a carriage return. *)
Definition no_CR (s : string) : Prop := CR ∉ list_ascii_of_string s.

Global Instance no_CR_dec s : Decision (no_CR s).
Proof. unfold no_CR; apply _. Defined.

(** [m] leaves the part [part] of the world as it is, however it ends. *)
Definition untouched {X} (part : World → X) {A} (m : M A) : Prop :=
  ∀ w : World, part (m w).2 = part w.

Global Instance InputMethod_eq_dec : EqDecision InputMethod.
Proof. solve_decision. Defined.

(** The form adds an entry in this run. *)
Definition entry_added (inp : Inputs) : Prop :=
  input_method inp = ManualDataEntry
  ∧ form_submitted inp = true
  ∧ form_unit_name inp ≠ EmptyString.

Global Instance entry_added_dec inp : Decision (entry_added inp).
Proof. unfold entry_added; apply _. Defined.

(** The record that the body of the loop makes of the two raw variates
    it draws: [z] for the consumption, [x] for the rate. *)
Definition record_from (month unit_ : string) (z x : Qc) : UsageRecord :=
  let consumption := py_max (lit 50) (lit 100 + lit 20 * z)%Qc in
  let rate := (lit 0.10 + (lit 0.15 - lit 0.10) * (x - Qc_of_Z (Qfloor x)))%Qc in
  mkUsageRecord month unit_ (round consumption 2) (round (consumption * rate) 2).

(** The generator after [n] more draws. *)
Definition advance (n : nat) (g : RandomState) : RandomState :=
  mkRandomState (entropy g) (cursor g + n).

(** The records for the pairs [labels] of month and unit, the [k]-th of
    them from the draws [2 k] and [2 k + 1] after the cursor [c]. *)
Definition records_from (g : RandomState) (c : nat) (labels : list (string * string))
    : list UsageRecord :=
  imap (λ k mu, record_from mu.1 mu.2 (entropy g (c + 2 * k)) (entropy g (c + 2 * k + 1)))
    labels.

(** The world after [n] more draws. *)
Definition drew (n : nat) (w : World) : World :=
  mkWorld (heap w) (manual_data w) (advance n (random_state w)) (screen w).

(** The run takes the generated sample table: no readable file was
    uploaded, or there is no manual entry, or sample data was chosen. *)
Definition sample_data_used (inp : Inputs) (w : World) : Prop :=
  match input_method inp with
  | UploadCSVFile =>
      match uploaded_file inp with
      | Some file => match read_csv file with inl _ => True | inr _ => False end
      | None => True
      end
  | ManualDataEntry => ¬ entry_added inp ∧ default [] (manual_data w) = []
  | UseSampleData => True
  end.

Global Instance sample_data_used_dec inp w : Decision (sample_data_used inp w).
Proof.
  unfold sample_data_used. destruct (input_method inp); [|apply _..].
  destruct (uploaded_file inp) as [file|]; [|apply _].
  destruct (read_csv file); apply _.
Defined.





















(** * The setup check ([test_setup.py]) *)

Module test_setup.

(** What [__import__(name)] does on this system: the module is imported,
    or an [ImportError] with a message is raised, or some other exception,
    which the script does not catch. *)
Inductive Import :=
  | Imported
  | ImportError (message : string)
  | import_raises.

Global Instance Import_eq_dec : EqDecision Import.
Proof. solve_decision. Defined.

(** What [subprocess.run(['streamlit', '--version'], ...)] does. *)
Inductive Run :=
  | CompletedProcess (returncode : Z) (stdout : string)
  | TimeoutExpired
  | FileNotFoundError
  | run_raises.

Global Instance Run_eq_dec : EqDecision Run.
Proof. solve_decision. Defined.

(** The system the script runs on. *)
Record System := mkSystem {
  version_info : nat * nat * nat;
  import_ : string → Import;
  streamlit_version : Run
}.

(** How a piece of the script ends. *)
Inductive Outcome (A : Type) :=
  | returned (a : A)
  | raised.
Global Arguments returned {A} a.
Global Arguments raised {A}.

(** A piece of the script: the lines it prints, and how it ends. *)
Definition Script (A : Type) : Type := list string * Outcome A.

Global Instance Script_ret : MRet Script := λ A a, ([], returned a).

Global Instance Script_bind : MBind Script := λ A B k m,
  match m with
  | (out, returned a) => let '(out', r) := k a in (out ++ out', r)
  | (out, raised) => (out, raised)
  end.

Definition print (line : string) : Script unit := ([line], returned ()).

Definition raise {A} : Script A := ([], raised).

Fixpoint for_each {A B} (l : list A) (body : B → A → Script B) (acc : B) : Script B :=
  match l with
  | [] => mret acc
  | x :: l' => acc' ← body acc x; for_each l' body acc'
  end.

(** [str.strip()], for the white space of ASCII. *)
Definition is_space (c : ascii) : bool :=
  let n := N_of_ascii c in
  ((9 <=? n)%N && (n <=? 13)%N) || ((28 <=? n)%N && (n <=? 32)%N).

Fixpoint lstrip (l : list ascii) : list ascii :=
  match l with
  | c :: l' => if is_space c then lstrip l' else l
  | [] => []
  end.

Definition strip (s : string) : string :=
  string_of_list_ascii (reverse (lstrip (reverse (lstrip (list_ascii_of_string s))))).

(** Lines 10-21. *)
Definition test_package_import (sys : System) (package_name : string)
    (import_name : option string) : Script bool :=
  let import_name := default package_name import_name in
  match import_ sys import_name with
  | Imported =>
      print ("✅ " +:+ package_name +:+ " - Successfully imported");; mret true
  | ImportError e =>
      print ("❌ " +:+ package_name +:+ " - Import failed: " +:+ e);; mret false
  | import_raises => raise
  end.

(** Lines 23-31. *)
Definition test_python_version (sys : System) : Script bool :=
  let '(major, minor, micro) := version_info sys in
  if (major =? 3) && (7 <=? minor) then
    print ("✅ Python " +:+ pretty major +:+ "." +:+ pretty minor +:+ "."
           +:+ pretty micro +:+ " - Compatible");;
    mret true
  else
    print ("❌ Python " +:+ pretty major +:+ "." +:+ pretty minor +:+ "."
           +:+ pretty micro +:+ " - Not compatible (Need 3.7+)");;
    mret false.

(** Lines 33-46. *)
Definition test_streamlit_command (sys : System) : Script bool :=
  match streamlit_version sys with
  | CompletedProcess returncode stdout =>
      if (returncode =? 0)%Z then
        print ("✅ Streamlit command - Available (" +:+ strip stdout +:+ ")");;
        mret true
      else
        print "❌ Streamlit command - Not available";; mret false
  | TimeoutExpired | FileNotFoundError =>
      print "❌ Streamlit command - Not found in PATH";; mret false
  | run_raises => raise
  end.

Definition packages : list (string * string) :=
  [("streamlit", "streamlit"); ("pandas", "pandas"); ("plotly", "plotly");
   ("numpy", "numpy"); ("openpyxl", "openpyxl")].

(** ["=" * 50] *)
Definition rule : string := String.concat EmptyString (replicate 50 "=").

(** Lines 48-94. *)
Definition main (sys : System) : Script unit :=
  print "🧪 Testing Electricity Dashboard Setup";;
  print rule;;
  let all_tests_passed := true in
  ok ← test_python_version sys;
  let all_tests_passed := if negb ok then false else all_tests_passed in
  print EmptyString;;
  print "Testing package imports:";;
  all_tests_passed ← for_each packages (λ all_tests_passed p,
    ok ← test_package_import sys p.1 (Some p.2);
    mret (if negb ok then false else all_tests_passed)) all_tests_passed;
  print EmptyString;;
  print "Testing Streamlit command:";;
  ok ← test_streamlit_command sys;
  let all_tests_passed := if negb ok then false else all_tests_passed in
  print EmptyString;;
  print rule;;
  if all_tests_passed then
    print "🎉 All tests passed! Your setup is ready.";;
    print (String LF "To run the dashboard:");;
    print "streamlit run electricity_dashboard.py"
  else
    print "❌ Some tests failed. Please check the installation guide.";;
    print (String LF "Common solutions:");;
    print "1. Make sure virtual environment is activated";;
    print "2. Run: pip install -r requirements.txt";;
    print "3. Check Python PATH configuration".

(** ** What the checks find, apart from what they print *)

Definition python_ok (sys : System) : Prop :=
  (version_info sys).1.1 = 3 ∧ 7 ≤ (version_info sys).1.2.

Definition package_ok (sys : System) (p : string * string) : Prop :=
  import_ sys p.2 = Imported.

Definition streamlit_ok (sys : System) : Prop :=
  match streamlit_version sys with
  | CompletedProcess returncode _ => returncode = 0%Z
  | _ => False
  end.

Definition all_ok (sys : System) : Prop :=
  python_ok sys ∧ Forall (package_ok sys) packages ∧ streamlit_ok sys.

Global Instance package_ok_dec sys p : Decision (package_ok sys p).
Proof. unfold package_ok. destruct (import_ sys p.2); (by left) || (by right). Defined.

Global Instance streamlit_ok_dec sys : Decision (streamlit_ok sys).
Proof. unfold streamlit_ok. destruct (streamlit_version sys); apply _. Defined.

Global Instance all_ok_dec sys : Decision (all_ok sys).
Proof. unfold all_ok, python_ok. apply _. Defined.

(** The line of each check. *)
Definition python_line (sys : System) : string :=
  let '(major, minor, micro) := version_info sys in
  (if decide (python_ok sys) then "✅ Python " else "❌ Python ")
  +:+ pretty major +:+ "." +:+ pretty minor +:+ "." +:+ pretty micro
  +:+ (if decide (python_ok sys) then " - Compatible"
       else " - Not compatible (Need 3.7+)").

Definition package_line (sys : System) (p : string * string) : string :=
  match import_ sys p.2 with
  | ImportError e => "❌ " +:+ p.1 +:+ " - Import failed: " +:+ e
  | _ => "✅ " +:+ p.1 +:+ " - Successfully imported"
  end.

Definition streamlit_line (sys : System) : string :=
  match streamlit_version sys with
  | CompletedProcess returncode stdout =>
      if decide (returncode = 0%Z)
      then "✅ Streamlit command - Available (" +:+ strip stdout +:+ ")"
      else "❌ Streamlit command - Not available"
  | _ => "❌ Streamlit command - Not found in PATH"
  end.

(** The last lines: the result of all checks together. *)
Definition verdict (passed : bool) : list string :=
  if passed then
    ["🎉 All tests passed! Your setup is ready.";
     String LF "To run the dashboard:";
     "streamlit run electricity_dashboard.py"]
  else
    ["❌ Some tests failed. Please check the installation guide.";
     String LF "Common solutions:";
     "1. Make sure virtual environment is activated";
     "2. Run: pip install -r requirements.txt";
     "3. Check Python PATH configuration"].

(** No check ends with an exception that the script does not catch. *)
Definition nothing_uncaught (sys : System) : Prop :=
  Forall (λ p, import_ sys p.2 ≠ import_raises) packages
  ∧ streamlit_version sys ≠ run_raises.

(** A system on which everything is in place. *)
Definition ready : System :=
  mkSystem (3, 11, 4) (λ _, Imported)
    (CompletedProcess 0 ("Streamlit, version 1.28.0" +:+ String LF EmptyString)).

(** A system without plotly and without the streamlit command. *)
Definition incomplete : System :=
  mkSystem (3, 11, 4)
    (λ name, if String.eqb name "plotly"
             then ImportError "No module named 'plotly'" else Imported)
    FileNotFoundError.

(** A system on which importing numpy fails with something else than an
    [ImportError] (a broken binary, say). *)
Definition broken_numpy : System :=
  mkSystem (3, 11, 4)
    (λ name, if String.eqb name "numpy" then import_raises else Imported)
    (CompletedProcess 0 ("Streamlit, version 1.28.0" +:+ String LF EmptyString)).

End test_setup.

(** * Properties *)

(** ** Columns of a table of records *)

Lemma getitem_Month rs :
  getitem (table_frame rs) "Month" = Some ((λ r, Str (Month r)) <$> rs).
Proof. unfold getitem, table_frame; simpl. by rewrite <- list_fmap_compose. Qed.

Lemma getitem_UnitName rs :
  getitem (table_frame rs) "UnitName" = Some ((λ r, Str (UnitName r)) <$> rs).
Proof. unfold getitem, table_frame; simpl. by rewrite <- list_fmap_compose. Qed.

Lemma getitem_UnitsConsumed rs :
  getitem (table_frame rs) "UnitsConsumed" = Some ((λ r, Num (UnitsConsumed r)) <$> rs).
Proof. unfold getitem, table_frame; simpl. by rewrite <- list_fmap_compose. Qed.

Lemma getitem_Cost rs :
  getitem (table_frame rs) "Cost" = Some ((λ r, Num (Cost r)) <$> rs).
Proof. unfold getitem, table_frame; simpl. by rewrite <- list_fmap_compose. Qed.

(** ** Sums *)

Lemma foldl_Qcplus_acc (a : Qc) (xs : list Qc) :
  foldl Qcplus a xs = (a + foldl Qcplus 0%Qc xs)%Qc.
Proof.
  revert a; induction xs as [|x xs IH]; intros a; simpl.
  - by rewrite Qcplus_0_r.
  - rewrite (IH (a + x)%Qc), (IH (0 + x)%Qc). ring.
Qed.

Lemma foldl_Qcplus_cons (x : Qc) (xs : list Qc) :
  foldl Qcplus 0%Qc (x :: xs) = (x + foldl Qcplus 0%Qc xs)%Qc.
Proof. simpl. rewrite foldl_Qcplus_acc. ring. Qed.


Lemma mapM_cell_number_Num {A} (f : A → Qc) (l : list A) :
  mapM cell_number ((λ a, Num (f a)) <$> l) = Some (f <$> l).
Proof.
  apply mapM_Some. induction l as [|a l IH]; simpl; by constructor.
Qed.

Lemma Series_sum_Num (f : UsageRecord → Qc) rs :
  Series_sum ((λ r, Num (f r)) <$> rs) = Some (sum_over f rs).
Proof.
  unfold Series_sum. rewrite mapM_cell_number_Num; simpl. f_equal.
  induction rs as [|r rs IH]; [done|].
  rewrite fmap_cons, foldl_Qcplus_cons, IH. done.
Qed.

Lemma total_units_table rs :
  total_units (table_frame rs) = Some (sum_over UnitsConsumed rs).
Proof. unfold total_units. rewrite getitem_UnitsConsumed. apply Series_sum_Num. Qed.

Lemma total_cost_table rs :
  total_cost (table_frame rs) = Some (sum_over Cost rs).
Proof. unfold total_cost. rewrite getitem_Cost. apply Series_sum_Num. Qed.


(** ** Distinct values *)

(** The number of distinct values of a list of labels, as a set. *)
Definition distinct_count (l : list string) : nat :=
  size (list_to_set l : gset string).

Lemma distinct_count_remove_dups (l : list string) :
  distinct_count l = length (remove_dups l).
Proof.
  unfold distinct_count.
  rewrite <- (size_list_to_set (C:=gset string) (remove_dups l))
    by apply NoDup_remove_dups.
  f_equal. apply set_eq; intros x.
  by rewrite !elem_of_list_to_set, elem_of_remove_dups.
Qed.

Lemma remove_dups_fmap_length {A B} `{EqDecision A, EqDecision B}
    (f : A → B) `{!Inj (=) (=) f} (l : list A) :
  length (remove_dups (f <$> l)) = length (remove_dups l).
Proof.
  rewrite <- (length_fmap f (remove_dups l)).
  apply Permutation_length, NoDup_Permutation.
  - apply NoDup_remove_dups.
  - apply NoDup_fmap_2; [done|apply NoDup_remove_dups].
  - intros y. rewrite elem_of_remove_dups, !list_elem_of_fmap.
    by setoid_rewrite elem_of_remove_dups.
Qed.

Global Instance Str_inj : Inj (=) (=) Str.
Proof. by intros s t [= ->]. Qed.

Lemma filter_notna_all (s : list Cell) :
  Forall (λ c, notna c = true) s → filter (λ c, notna c = true) s = s.
Proof.
  induction 1 as [|c s Hc _ IH]; [done|].
  by rewrite filter_cons_True, IH.
Qed.

Lemma notna_Str_fmap {A} (f : A → string) (l : list A) :
  Forall (λ c, notna c = true) ((λ a, Str (f a)) <$> l).
Proof. apply Forall_fmap, Forall_true. done. Qed.

Lemma Series_nunique_Str {A} (f : A → string) (l : list A) :
  Series_nunique ((λ a, Str (f a)) <$> l) = distinct_count (f <$> l).
Proof.
  unfold Series_nunique.
  rewrite filter_notna_all by apply notna_Str_fmap.
  rewrite distinct_count_remove_dups.
  change ((λ a, Str (f a)) <$> l) with ((Str ∘ f) <$> l).
  rewrite (list_fmap_compose f Str l).
  apply (remove_dups_fmap_length Str (f <$> l)).
Qed.

Lemma num_departments_table rs :
  num_departments (table_frame rs) = Some (distinct_count (UnitName <$> rs)).
Proof.
  unfold num_departments. rewrite getitem_UnitName; simpl.
  by rewrite Series_nunique_Str.
Qed.

(** ** The average cost per unit *)

Lemma avg_cost_per_unit_value (tc tu : Qc) :
  avg_cost_per_unit tc tu
  = Some (if decide (0 < tu)%Qc then (tc / tu)%Qc else 0%Qc).
Proof.
  unfold avg_cost_per_unit, truediv.
  destruct (decide (0 < tu)%Qc) as [Hpos|]; [|done].
  destruct (decide (tu = 0%Qc)) as [->|]; [|done].
  by apply Qclt_not_eq in Hpos.
Qed.

Lemma calculate_kpis_table rs :
  calculate_kpis (table_frame rs)
  = Some (mkKPIs (sum_over UnitsConsumed rs) (sum_over Cost rs)
            (if decide (0 < sum_over UnitsConsumed rs)%Qc
             then (sum_over Cost rs / sum_over UnitsConsumed rs)%Qc else 0%Qc)
            (distinct_count (UnitName <$> rs))).
Proof.
  unfold calculate_kpis.
  rewrite total_units_table, total_cost_table, num_departments_table.
  cbn [mbind option_bind]. by rewrite avg_cost_per_unit_value.
Qed.

Lemma sum_over_zero (f : UsageRecord → Qc) rs :
  Forall (λ r, f r = 0%Qc) rs → sum_over f rs = 0%Qc.
Proof.
  induction 1 as [|r rs Hr _ IH]; simpl; [done|].
  rewrite Hr, IH. ring.
Qed.

(** Claim C3. For every table of usage records the KPI calculator returns
    the sum of the consumed units, the sum of the costs and the number of
    distinct unit names; on the two-row example of the specification it
    returns 150, 22.5, 0.15 and 2, and the monthly views hold the single
    row January with 150 units and 22.5 of cost. *)
Theorem kpis_are_sums_and_distinct_count :
  (∀ rs, ∃ avg,
     calculate_kpis (table_frame rs)
     = Some (mkKPIs (sum_over UnitsConsumed rs) (sum_over Cost rs) avg
               (distinct_count (UnitName <$> rs))))
  ∧ calculate_kpis (table_frame example_records)
    = Some (mkKPIs (lit 150) (lit 22.5) (lit 0.15) 2)
  ∧ monthly_data (table_frame example_records)
    = Some (mkDataFrame ["Month"; "UnitsConsumed"]
              [[Cat 0 "January"; Num (lit 150)]])
  ∧ monthly_cost (table_frame example_records)
    = Some (mkDataFrame ["Month"; "Cost"]
              [[Cat 0 "January"; Num (lit 22.5)]]).
Proof.
  split; [|split; [|split]].
  - intros rs. eexists. apply calculate_kpis_table.
  - apply (bool_decide_unpack _). by vm_compute.
  - apply (bool_decide_unpack _). by vm_compute.
  - apply (bool_decide_unpack _). by vm_compute.
Qed.

(** Claim C4. The average cost per unit is the quotient of the totals
    when the total of units is positive and 0 when it is 0; computing it
    never divides by zero ([truediv] is never asked for a zero divisor, so
    the result is never [None]); a table whose consumption is zero in
    every record has average 0. *)
Theorem avg_cost_per_unit_never_divides_by_zero :
  (∀ tc tu : Qc,
     is_Some (avg_cost_per_unit tc tu)
     ∧ ((0 < tu)%Qc → avg_cost_per_unit tc tu = Some (tc / tu)%Qc)
     ∧ (tu = 0%Qc → avg_cost_per_unit tc tu = Some 0%Qc))
  ∧ (∀ df k, calculate_kpis df = Some k →
       ((0 < kpi_total_units k)%Qc →
          kpi_avg_cost_per_unit k = (kpi_total_cost k / kpi_total_units k)%Qc)
       ∧ (kpi_total_units k = 0%Qc → kpi_avg_cost_per_unit k = 0%Qc))
  ∧ (∀ rs, Forall (λ r, UnitsConsumed r = 0%Qc) rs →
       ∃ k, calculate_kpis (table_frame rs) = Some k
            ∧ kpi_total_units k = 0%Qc ∧ kpi_avg_cost_per_unit k = 0%Qc).
Proof.
  split; [|split].
  - intros tc tu. rewrite avg_cost_per_unit_value. split; [by eexists|].
    split.
    + intros Hpos. by rewrite decide_True.
    + intros ->. by rewrite decide_False.
  - intros df k Hk. unfold calculate_kpis in Hk.
    destruct (total_units df) as [tu|]; [|done].
    destruct (total_cost df) as [tc|]; [|done]. simpl in Hk.
    rewrite avg_cost_per_unit_value in Hk. simpl in Hk.
    destruct (num_departments df) as [n|]; [|done].
    injection Hk as <-; simpl. split.
    + intros Hpos. by rewrite decide_True.
    + intros ->. by rewrite decide_False.
  - intros rs Hz. eexists. split; [apply calculate_kpis_table|]. simpl.
    rewrite (sum_over_zero UnitsConsumed rs Hz). by rewrite decide_False.
Qed.


(** ** Sorting and removing duplicates commute with an injective map *)

Section merge_sort_fmap.
Context {A B : Type} (f : A → B) (R1 : relation A) (R2 : relation B).
Context `{!RelDecision R1, !RelDecision R2}.
Hypothesis HR : ∀ x y, R1 x y ↔ R2 (f x) (f y).

Lemma list_merge_fmap (l1 l2 : list A) :
  list_merge R2 (f <$> l1) (f <$> l2) = f <$> list_merge R1 l1 l2.
Proof.
  revert l2. induction l1 as [|x1 l1 IH1]; intros l2.
  { by rewrite fmap_nil, !list_merge_nil_l. }
  induction l2 as [|x2 l2 IH2].
  { by rewrite fmap_nil, !list_merge_nil_r. }
  rewrite !fmap_cons, !list_merge_cons.
  destruct (decide (R1 x1 x2)) as [H1|H1], (decide (R2 (f x1) (f x2))) as [H2|H2];
    try (by apply HR in H1); try (by apply HR in H2).
  - rewrite fmap_cons, <- IH1. by rewrite fmap_cons.
  - rewrite fmap_cons, <- IH2. by rewrite fmap_cons.
Qed.

Lemma merge_list_to_stack_fmap (st : list (option (list A))) (l : list A) :
  merge_list_to_stack R2 (stack_fmap f st) (f <$> l)
  = stack_fmap f (merge_list_to_stack R1 st l).
Proof.
  revert l. induction st as [|[l'|] st IH]; intros l; simpl; [done| |done].
  by rewrite list_merge_fmap, IH.
Qed.

Lemma merge_stack_fmap (st : list (option (list A))) :
  merge_stack R2 (stack_fmap f st) = f <$> merge_stack R1 st.
Proof.
  induction st as [|[l'|] st IH]; simpl; [done| |done].
  by rewrite IH, list_merge_fmap.
Qed.

Lemma merge_sort_aux_fmap (st : list (option (list A))) (l : list A) :
  merge_sort_aux R2 (stack_fmap f st) (f <$> l)
  = f <$> merge_sort_aux R1 st l.
Proof.
  revert st. induction l as [|x l IH]; intros st; simpl.
  - apply merge_stack_fmap.
  - rewrite <- IH. f_equal. apply (merge_list_to_stack_fmap st [x]).
Qed.

Lemma merge_sort_fmap (l : list A) : merge_sort R2 (f <$> l) = f <$> merge_sort R1 l.
Proof. apply (merge_sort_aux_fmap []). Qed.
End merge_sort_fmap.

Lemma remove_dups_fmap_inj {A B} `{EqDecision A, EqDecision B}
    (f : A → B) `{!Inj (=) (=) f} (l : list A) :
  remove_dups (f <$> l) = f <$> remove_dups l.
Proof.
  induction l as [|x l IH]; [done|]. rewrite fmap_cons. simpl.
  destruct (decide_rel elem_of x l) as [Hx|Hx],
           (decide_rel elem_of (f x) (f <$> l)) as [Hfx|Hfx].
  - done.
  - destruct Hfx. by apply list_elem_of_fmap_2.
  - destruct Hx. apply list_elem_of_fmap in Hfx as (y & Hy & ?).
    by apply (inj f) in Hy as ->.
  - by rewrite fmap_cons, IH.
Qed.

(** ** Grouping a table of records by month *)

Lemma one_kind_Str (l : list string) : one_kind (Str <$> l) = true.
Proof.
  destruct l as [|s l]; [done|]. simpl.
  induction l as [|t l IH]; [done|]. simpl. by rewrite IH.
Qed.

Lemma group_keys_Str (l : list string) :
  group_keys (Str <$> l) = Some (Str <$> merge_sort string_le (remove_dups l)).
Proof.
  unfold group_keys.
  rewrite filter_notna_all by apply (notna_Str_fmap (λ s, s)).
  rewrite remove_dups_fmap_inj by apply _.
  rewrite one_kind_Str. f_equal.
  by apply merge_sort_fmap.
Qed.

Lemma group_keys_labels (g : UsageRecord → string) rs :
  group_keys ((λ r, Str (g r)) <$> rs) = Some (Str <$> key_labels g rs).
Proof.
  change ((λ r, Str (g r)) <$> rs) with ((Str ∘ g) <$> rs).
  rewrite (list_fmap_compose g Str rs). apply group_keys_Str.
Qed.

Lemma group_values_key (g : UsageRecord → string) (f : UsageRecord → Qc)
    (k : string) rs :
  group_values (Str k)
    (zip ((λ r, Str (g r)) <$> rs) ((λ r, Num (f r)) <$> rs))
  = (λ r, Num (f r)) <$> filter (λ r, g r = k) rs.
Proof.
  unfold group_values.
  induction rs as [|r rs IH]; [done|].
  rewrite !fmap_cons. simpl zip. rewrite !filter_cons. simpl.
  destruct (decide (Str (g r) = Str k)) as [[= E]|E],
           (decide (g r = k)) as [E'|E']; try done.
  - by rewrite fmap_cons, IH.
  - by destruct E; rewrite E'.
Qed.

(** [groupby] on a text column of a table of records, in closed form. *)
Lemma groupby_sum_table (g : UsageRecord → string) (f : UsageRecord → Qc)
    (by_ val : string) rs :
  getitem (table_frame rs) by_ = Some ((λ r, Str (g r)) <$> rs) →
  getitem (table_frame rs) val = Some ((λ r, Num (f r)) <$> rs) →
  groupby_sum (table_frame rs) by_ val
  = Some (mkDataFrame [by_; val] (group_row g f rs <$> key_labels g rs)).
Proof.
  intros Hby Hval. unfold groupby_sum.
  rewrite Hby, Hval. cbn [mbind option_bind].
  rewrite group_keys_labels. cbn [mbind option_bind].
  assert (mapM (λ k, t ← Series_sum (group_values k
                   (zip ((λ r, Str (g r)) <$> rs) ((λ r, Num (f r)) <$> rs)));
                 Some [k; Num t]) (Str <$> key_labels g rs)
          = Some (group_row g f rs <$> key_labels g rs))
    as ->; [|done].
  apply mapM_Some, Forall2_fmap, Forall_Forall2_diag, Forall_true.
  intros k. by rewrite group_values_key, Series_sum_Num.
Qed.

Lemma groupby_Month_table (f : UsageRecord → Qc) (val : string) rs :
  getitem (table_frame rs) val = Some ((λ r, Num (f r)) <$> rs) →
  groupby_sum (table_frame rs) "Month" val
  = Some (mkDataFrame ["Month"; val]
            ((λ m, [Str m; Num (sum_over f (in_month m rs))]) <$> month_labels rs)).
Proof. apply groupby_sum_table, getitem_Month. Qed.

Lemma filter_fmap_comm {A B} (f : A → B) (P : B → Prop) (Q : A → Prop)
    `{!∀ y, Decision (P y), !∀ x, Decision (Q x)} (l : list A) :
  (∀ x, Q x ↔ P (f x)) → filter P (f <$> l) = f <$> filter Q l.
Proof.
  intros HPQ. induction l as [|x l IH]; [done|].
  rewrite fmap_cons, !filter_cons.
  destruct (decide (P (f x))) as [HP|HP], (decide (Q x)) as [HQ|HQ].
  - by rewrite fmap_cons, IH.
  - by apply HPQ in HP.
  - by apply HPQ in HQ.
  - done.
Qed.

Lemma notna_month_category m : notna (month_category m) = true ↔ recognised m.
Proof.
  unfold month_category, recognised.
  destruct (month_index m); simpl.
  - split; [by eexists|done].
  - split; [done|by intros [? ?]].
Qed.

Lemma pd_Categorical_months (ms : list string) :
  pd_Categorical (Str <$> ms) month_order = month_category <$> ms.
Proof. unfold pd_Categorical. by rewrite <- list_fmap_compose. Qed.

Lemma one_kind_month_category (ms : list string) :
  Forall recognised ms → one_kind (month_category <$> ms) = true.
Proof.
  intros Hms. destruct Hms as [|m ms [i Hi] Hms]; [done|]. simpl.
  unfold month_category at 1. rewrite Hi.
  induction Hms as [|m' ms [j Hj] _ IH]; [done|]. simpl.
  unfold month_category at 1. rewrite Hj. by simpl.
Qed.

(** The monthly view of a table of records, in closed form: one row per
    label of [calendar_sorted (month_labels rs)]. *)
Lemma monthly_view_table (f : UsageRecord → Qc) (val : string) rs :
  getitem (table_frame rs) val = Some ((λ r, Num (f r)) <$> rs) →
  monthly_view (table_frame rs) val
  = Some (mkDataFrame ["Month"; val]
            (monthly_row f rs <$> calendar_sorted (month_labels rs))).
Proof.
  intros Hval. unfold monthly_view.
  rewrite (groupby_Month_table f val rs Hval). cbn [mbind option_bind].
  set (ms := month_labels rs).
  unfold getitem. cbn [columns rows index_of String.eqb Ascii.eqb Bool.eqb fmap option_fmap option_map mbind option_bind].
  rewrite <- list_fmap_compose.
  change ((λ r : list Cell, nth 0 r NaN) ∘ _) with Str.
  rewrite pd_Categorical_months.
  unfold setitem. cbn [columns rows].
  rewrite bool_decide_eq_true_2 by (by rewrite !length_fmap).
  cbn [index_of String.eqb Ascii.eqb Bool.eqb].
  rewrite zip_with_fmap_l, zip_with_fmap_r, zip_with_diag.
  cbn [list_insert insert].
  change (λ x : string, [month_category x; Num (sum_over f (in_month x rs))])
    with (monthly_row f rs).
  unfold sort_values.
  cbn [columns rows index_of String.eqb Ascii.eqb Bool.eqb mbind option_bind].
  rewrite (filter_fmap_comm (monthly_row f rs) _ recognised)
    by (intros m; symmetry; apply notna_month_category).
  rewrite (filter_fmap_comm (monthly_row f rs) _ (λ m, ¬ recognised m)).
  2:{ intros m. cbn [monthly_row nth]. rewrite <- notna_month_category.
      by destruct (notna (month_category m)). }
  rewrite <- list_fmap_compose.
  change ((λ r : list Cell, nth 0 r NaN) ∘ monthly_row f rs) with month_category.
  rewrite one_kind_month_category.
  2:{ apply list.Forall_forall. intros m Hm. by apply list_elem_of_filter in Hm as [? _]. }
  do 2 f_equal. unfold calendar_sorted. rewrite fmap_app. f_equal.
  by apply merge_sort_fmap.
Qed.

Lemma calendar_sorted_perm (ms : list string) : calendar_sorted ms ≡ₚ ms.
Proof.
  unfold calendar_sorted. rewrite merge_sort_Permutation.
  apply filter_app_complement.
Qed.

Lemma month_labels_perm rs : month_labels rs ≡ₚ remove_dups (Month <$> rs).
Proof. apply merge_sort_Permutation. Qed.


(** ** Calendar order *)

Lemma index_of_is_Some (c : string) (l : list string) :
  is_Some (index_of c l) ↔ c ∈ l.
Proof.
  induction l as [|x l IH]; simpl.
  - split; [by intros [? ?]|by intros ?%elem_of_nil].
  - destruct (String.eqb_spec x c) as [->|Hne].
    + split; [intros _; by left|by eexists].
    + rewrite fmap_is_Some, IH. split; [by right|].
      intros [?|?]%elem_of_cons; [by subst|done].
Qed.

Lemma index_of_inj (a b : string) (l : list string) (i : nat) :
  index_of a l = Some i → index_of b l = Some i → a = b.
Proof.
  revert i. induction l as [|x l IH]; intros i; simpl; [done|].
  destruct (String.eqb_spec x a) as [Ha|Ha], (String.eqb_spec x b) as [Hb|Hb].
  - by subst.
  - intros [= <-]. by destruct (index_of b l).
  - intros Hi [= <-]. by destruct (index_of a l).
  - destruct (index_of a l) as [ia|] eqn:Ea; [|done].
    destruct (index_of b l) as [ib|] eqn:Eb; [|done].
    simpl. intros [= <-] [= ->]. by eapply IH.
Qed.

Lemma recognised_month_order m : recognised m ↔ m ∈ month_order.
Proof. apply index_of_is_Some. Qed.

Global Instance cell_le_total : Total cell_le.
Proof.
  intros [|s|x|[]|i a] [|t|y|[]|j b]; simpl; auto.
  - apply String.leb_total.
  - apply (total Qcle).
  - lia.
Qed.

Global Instance month_le_total : Total month_le.
Proof. intros a b. apply (total cell_le). Qed.

Lemma filter_all {A} (P : A → Prop) `{!∀ x, Decision (P x)} (l : list A) :
  Forall P l → filter P l = l.
Proof.
  induction 1 as [|x l Hx _ IH]; [done|]. by rewrite filter_cons_True, IH.
Qed.

Lemma filter_none {A} (P : A → Prop) `{!∀ x, Decision (P x)} (l : list A) :
  Forall P l → filter (λ x, ¬ P x) l = [].
Proof.
  induction 1 as [|x l Hx _ IH]; [done|].
  rewrite filter_cons_False by tauto. done.
Qed.

Lemma calendar_sorted_recognised (ms : list string) :
  Forall recognised ms → calendar_sorted ms = merge_sort month_le ms.
Proof.
  intros Hms. unfold calendar_sorted.
  rewrite filter_all, filter_none by done. by rewrite app_nil_r.
Qed.

Lemma month_le_calendar_lt (a b : string) :
  recognised a → recognised b → a ≠ b → month_le a b → calendar_lt a b.
Proof.
  unfold month_le, month_category, calendar_lt.
  intros [i Hi] [j Hj] Hne. rewrite Hi, Hj. simpl. intros Hle.
  exists i, j. repeat split; [done..|].
  destruct (decide (i = j)) as [->|]; [|lia].
  destruct Hne. eapply index_of_inj; eauto.
Qed.

Lemma month_le_trans_recognised (a b c : string) :
  recognised a → recognised b → recognised c →
  month_le a b → month_le b c → month_le a c.
Proof.
  unfold month_le, month_category.
  intros [i ->] [j ->] [k ->]. simpl. lia.
Qed.

Lemma Sorted_month_le_strict (l : list string) :
  Forall recognised l → NoDup l → Sorted month_le l →
  StronglySorted calendar_lt l.
Proof.
  intros Hrec Hnd Hs.
  assert (StronglySorted month_le l) as Hss.
  { clear Hnd. induction Hs as [|x l Hs IH Hhd]; [constructor|].
    apply Forall_cons_1 in Hrec as [Hx Hl].
    specialize (IH Hl). constructor; [done|].
    destruct Hhd as [|y l Hxy]; [constructor|].
    apply StronglySorted_cons in IH as [Hy _].
    apply Forall_cons_1 in Hl as [Hyrec Hl].
    constructor; [done|].
    apply list.Forall_forall. intros z Hz.
    pose proof (proj1 (list.Forall_forall recognised l) Hl z Hz) as Hzrec.
    pose proof (proj1 (list.Forall_forall (month_le y) l) Hy z Hz) as Hyz.
    by eapply (month_le_trans_recognised x y z). }
  clear Hs. induction Hss as [|x l Hss IH Hx]; [constructor|].
  apply Forall_cons_1 in Hrec as [Hxrec Hl].
  apply NoDup_cons_1_1 in Hnd as Hxl. apply NoDup_cons_1_2 in Hnd.
  constructor; [by apply IH|].
  apply list.Forall_forall. intros y Hy.
  apply month_le_calendar_lt; try done.
  - exact (proj1 (list.Forall_forall recognised l) Hl y Hy).
  - by intros ->.
  - exact (proj1 (list.Forall_forall (month_le x) l) Hx y Hy).
Qed.

Lemma months_recognised rs :
  Forall (λ r, Month r ∈ month_order) rs → Forall recognised (month_labels rs).
Proof.
  intros Hrs. apply list.Forall_forall. intros m Hm.
  rewrite month_labels_perm, elem_of_remove_dups in Hm.
  apply list_elem_of_fmap in Hm as (r & -> & Hr).
  apply recognised_month_order.
  exact (proj1 (list.Forall_forall _ rs) Hrs r Hr).
Qed.

(** Claim C5, as amended. Each monthly view of a table of records has one
    row per distinct month label of the table and no other row, so as
    many rows as there are distinct labels; each row carries the sum over
    the records of its month. When every label is a calendar month there
    are at most 12 rows and they are in calendar order. *)
Theorem monthly_views_one_row_per_month (rs : list UsageRecord) :
  ∃ ms : list string,
    monthly_data (table_frame rs)
    = Some (mkDataFrame ["Month"; "UnitsConsumed"] (monthly_row UnitsConsumed rs <$> ms))
    ∧ monthly_cost (table_frame rs)
      = Some (mkDataFrame ["Month"; "Cost"] (monthly_row Cost rs <$> ms))
    ∧ ms ≡ₚ remove_dups (Month <$> rs)
    ∧ length ms = distinct_count (Month <$> rs)
    ∧ (Forall (λ r, Month r ∈ month_order) rs →
       (length ms ≤ 12)%nat ∧ StronglySorted calendar_lt ms).
Proof.
  exists (calendar_sorted (month_labels rs)).
  assert (calendar_sorted (month_labels rs) ≡ₚ remove_dups (Month <$> rs)) as Hperm
    by (by rewrite calendar_sorted_perm, month_labels_perm).
  split; [|split; [|split; [|split]]].
  - apply monthly_view_table, getitem_UnitsConsumed.
  - apply monthly_view_table, getitem_Cost.
  - done.
  - by rewrite Hperm, distinct_count_remove_dups.
  - intros Hrs. split.
    + rewrite Hperm.
      change 12 with (length month_order).
      apply submseteq_length, NoDup_submseteq; [apply NoDup_remove_dups|].
      intros m Hm. apply elem_of_remove_dups, list_elem_of_fmap in Hm as (r & -> & Hr).
      exact (proj1 (list.Forall_forall _ rs) Hrs r Hr).
    + pose proof (months_recognised rs Hrs) as Hrec.
      apply Sorted_month_le_strict.
      * by rewrite calendar_sorted_perm.
      * rewrite Hperm. apply NoDup_remove_dups.
      * rewrite calendar_sorted_recognised by done.
        apply Sorted_merge_sort, _.
Qed.

Lemma monthly_views_one_row_per_month_witness :
  ∃ ms : list string,
    monthly_data (table_frame example_records)
    = Some (mkDataFrame ["Month"; "UnitsConsumed"]
              (monthly_row UnitsConsumed example_records <$> ms))
    ∧ (length ms ≤ 12)%nat ∧ StronglySorted calendar_lt ms.
Proof.
  destruct (monthly_views_one_row_per_month example_records)
    as (ms & Hdata & _ & _ & _ & Hcal).
  exists ms. split; [exact Hdata|]. apply Hcal.
  repeat constructor; apply (bool_decide_unpack _); vm_compute; exact I.
Defined.

(** Claim C5 as the specification states it bounds the row count by 12
    for every validated table; a table with thirteen distinct month
    labels passes validation and its monthly view has thirteen rows. *)
Lemma monthly_data_thirteen_rows :
  ∃ out, monthly_data (table_frame thirteen_labels) = Some out
         ∧ length (rows out) = 13 ∧ ¬ (length (rows out) ≤ 12)%nat.
Proof.
  eexists. split; [reflexivity|]. split; [by vm_compute|].
  vm_compute. lia.
Qed.

Lemma avg_cost_per_unit_never_divides_by_zero_witness :
  avg_cost_per_unit (lit 22.5) (lit 150) = Some (lit 22.5 / lit 150)%Qc
  ∧ avg_cost_per_unit (lit 22.5) 0%Qc = Some 0%Qc.
Proof.
  destruct avg_cost_per_unit_never_divides_by_zero as (Hfun & _ & _).
  split.
  - apply (Hfun (lit 22.5) (lit 150)). reflexivity.
  - apply (Hfun (lit 22.5) 0%Qc). reflexivity.
Defined.


(** ** Reasoning about runs *)

Lemma returns_ret {A} (a : A) (w : World) (Q : A → World → Prop) :
  Q a w → returns (mret a) w Q.
Proof. intros HQ. by exists a, w. Qed.

Lemma returns_bind {A B} (m : M A) (k : A → M B) (w : World) (Q : B → World → Prop) :
  returns m w (λ a w1, returns (k a) w1 Q) → returns (m ≫= k) w Q.
Proof.
  intros (a & w1 & Hm & b & w2 & Hk & HQ). exists b, w2. split; [|done].
  unfold mbind, M_bind. by rewrite Hm.
Qed.

Lemma returns_consequence {A} (m : M A) (w : World) (P Q : A → World → Prop) :
  returns m w P → (∀ a w', P a w' → Q a w') → returns m w Q.
Proof. intros (a & w' & Hm & HP) HPQ. exists a, w'. auto. Qed.

(** The loop rule: [I done acc w] is the invariant after the elements
    [done] have been processed. *)
Lemma for_each_returns {A B} (I : list A → B → World → Prop)
    (body : B → A → M B) (l : list A) (acc : B) (w : World) :
  I [] acc w →
  (∀ done x acc w, I done acc w →
     returns (body acc x) w (λ acc' w', I (done ++ [x]) acc' w')) →
  returns (for_each l body acc) w (λ acc' w', I l acc' w').
Proof.
  intros H0 Hstep.
  assert (∀ done, I done acc w →
            returns (for_each l body acc) w (λ acc' w', I (done ++ l) acc' w')) as Hgen.
  { clear H0. revert acc w. induction l as [|x l IH]; intros acc w done HI.
    - apply returns_ret. by rewrite app_nil_r.
    - simpl. apply returns_bind.
      eapply returns_consequence; [by apply Hstep|].
      intros acc' w' HI'. simpl.
      specialize (IH acc' w' (done ++ [x]) HI').
      by rewrite <- app_assoc in IH. }
  apply (Hgen [] H0).
Qed.

(** ** Rounding and the random draws *)

Lemma round_half_even_lower (k : Z) (x : Qc) :
  (Qc_of_Z k ≤ x)%Qc → (k ≤ round_half_even x)%Z.
Proof.
  intros Hk. assert (k ≤ Qfloor x)%Z as Hfl.
  { rewrite <- (Qfloor_Z k). by apply Qfloor_resp_le. }
  unfold round_half_even. repeat case_decide; try destruct (Z.even _); lia.
Qed.

Lemma round_lower (k : Z) (x : Qc) :
  (Qc_of_Z k / lit 100 ≤ x)%Qc → (Qc_of_Z k / lit 100 ≤ round x 2)%Qc.
Proof.
  intros Hk. unfold round.
  change (Qc_of_Z (10 ^ Z.of_nat 2)) with (Qc_of_Z 100).
  assert (Qc_of_Z 100 = lit 100) as -> by (by apply Qc_is_canon).
  assert (0 < lit 100)%Qc as Hpos by done.
  assert (0 < / lit 100)%Qc as Hipos by done.
  unfold Qcdiv. apply Qcmult_le_mono_pos_r; [done|].
  apply (proj1 (Z2Qc_inj_le _ _)), round_half_even_lower.
  apply (Qcmult_le_mono_pos_r _ _ (lit 100)) in Hk; [|done].
  unfold Qcdiv in Hk. rewrite <- Qcmult_assoc, (Qcmult_comm (/ lit 100)) in Hk.
  rewrite Qcmult_inv_r, Qcmult_1_r in Hk; done.
Qed.

Lemma py_max_lower (a b : Qc) : (a ≤ py_max a b)%Qc.
Proof.
  unfold py_max. case_decide; [by apply Qclt_le_weak|reflexivity].
Qed.

Lemma fractional_part_range (x : Qc) :
  (0 ≤ x - Qc_of_Z (Qfloor x))%Qc ∧ (x - Qc_of_Z (Qfloor x) ≤ 1)%Qc.
Proof.
  split.
  - unfold Qcminus.
    apply (proj1 (Qcle_minus_iff (Qc_of_Z (Qfloor x)) x)). apply Qfloor_le.
  - apply Qclt_le_weak.
    apply (Qcplus_lt_mono_r _ _ (Qc_of_Z (Qfloor x))).
    replace (x - Qc_of_Z (Qfloor x) + Qc_of_Z (Qfloor x))%Qc with x by ring.
    rewrite (Qcplus_comm 1), <- Z2Qc_inj_1, <- Z2Qc_inj_add.
    apply Qlt_floor.
Qed.

Lemma uniform_range (low high u : Qc) :
  (low ≤ high)%Qc → (0 ≤ u)%Qc → (u ≤ 1)%Qc →
  (low ≤ low + (high - low) * u)%Qc ∧ (low + (high - low) * u ≤ high)%Qc.
Proof.
  intros Hlh H0 H1.
  assert (0 ≤ high - low)%Qc as Hd.
  { unfold Qcminus. by apply (proj1 (Qcle_minus_iff low high)). }
  split.
  - rewrite <- (Qcplus_0_r low) at 1.
    apply (proj1 (Qcplus_le_mono_l _ _ low)). by apply Qcmult_nonneg_nonneg.
  - replace high with (low + (high - low) * 1)%Qc at 2 by ring.
    apply (proj1 (Qcplus_le_mono_l _ _ low)).
    by apply Qcmult_le_mono_nonneg_l.
Qed.

Lemma sample_record_returns (month unit_ : string) (w : World) :
  returns (sample_record month unit_) w (λ r w',
    Month r = month ∧ UnitName r = unit_ ∧ sample_record_ok r
    ∧ only_random_moved w w').
Proof.
  eexists _, _. split; [reflexivity|]. simpl.
  set (z := entropy (random_state w) (cursor (random_state w))).
  set (x := entropy (random_state w) (S (cursor (random_state w)))).
  set (c := py_max (lit 50) (lit 100 + lit 20 * z)%Qc).
  set (rate := (lit 0.10 + (lit 0.15 - lit 0.10) * (x - Qc_of_Z (Qfloor x)))%Qc).
  assert (lit 50 ≤ c)%Qc as Hc by apply py_max_lower.
  destruct (fractional_part_range x) as [Hu0 Hu1].
  destruct (uniform_range (lit 0.10) (lit 0.15) _ ltac:(done) Hu0 Hu1) as [Hr0 Hr1].
  fold rate in Hr0, Hr1.
  assert (Qc_of_Z 5000 / lit 100 = lit 50)%Qc as E50 by (by apply Qc_is_canon).
  assert (Qc_of_Z 0 / lit 100 = 0)%Qc as E0 by (by apply Qc_is_canon).
  repeat split; try done.
  - exists c, rate. by repeat split.
  - rewrite <- E50. apply round_lower. by rewrite E50.
  - rewrite <- E0. apply round_lower. rewrite E0.
    apply Qcmult_nonneg_nonneg.
    + by etrans; [|exact Hc].
    + by etrans; [|exact Hr0].
Qed.

Lemma inner_loop_returns (month : string) (data0 : list UsageRecord) (w0 : World) :
  returns (for_each sample_units (λ data unit_,
             r ← sample_record month unit_; mret (data ++ [r])) data0) w0
    (λ data w, ∃ new, data = data0 ++ new
       ∧ record_labels new = (λ u, (month, u)) <$> sample_units
       ∧ Forall sample_record_ok new
       ∧ only_random_moved w0 w).
Proof.
  apply (for_each_returns (λ done data w, ∃ new, data = data0 ++ new
       ∧ record_labels new = (λ u, (month, u)) <$> done
       ∧ Forall sample_record_ok new
       ∧ only_random_moved w0 w)).
  - exists []. by rewrite app_nil_r.
  - intros done u data w (new & -> & Hlab & Hok & Hh & Hm & Hs).
    apply returns_bind.
    eapply returns_consequence; [apply sample_record_returns|].
    intros r w' (Hmo & Hun & Hr & Hh' & Hm' & Hs'). apply returns_ret.
    exists (new ++ [r]). split; [by rewrite app_assoc|].
    split; [|split].
    + unfold record_labels in *. by rewrite !fmap_app, Hlab, <- Hmo, <- Hun.
    + apply Forall_app. split; [done|by constructor].
    + repeat split; congruence.
Qed.

Lemma sample_rows_returns (w0 : World) :
  returns sample_rows w0 (λ data w,
    record_labels data = list_prod sample_months sample_units
    ∧ Forall sample_record_ok data
    ∧ only_random_moved w0 w).
Proof.
  eapply returns_consequence.
  - apply (for_each_returns (λ done data w,
        record_labels data = (done ≫= λ m, (λ u, (m, u)) <$> sample_units)
        ∧ Forall sample_record_ok data
        ∧ only_random_moved w0 w)).
    + by repeat split.
    + intros done m data w (Hlab & Hok & Hh & Hm & Hs).
      eapply returns_consequence; [apply inner_loop_returns|].
      intros data' w' (new & -> & Hlab' & Hok' & Hh' & Hm' & Hs').
      split; [|split].
      * unfold record_labels in *. rewrite fmap_app, Hlab, Hlab'.
        by rewrite bind_app.
      * by apply Forall_app.
      * repeat split; congruence.
  - intros data w (Hlab & Hok & Hfr). by rewrite Hlab.
Qed.

(** Claim C7. Whatever the random generator produces, the sample table
    has exactly 60 records, one per month and unit in the order of the
    two loops; every stored consumption is at least 50 and every stored
    cost at least 0; and every record stores a consumption of at least 50
    and that consumption times a rate between 0.10 and 0.15, both rounded
    to two decimals. *)
Theorem create_sample_data_shape (w : World) :
  ∃ rs w',
    create_sample_data w = (Ok (length (heap w)), w')
    ∧ heap w' = heap w ++ [table_frame rs]
    ∧ length rs = 60
    ∧ record_labels rs = list_prod sample_months sample_units
    ∧ Forall (λ r, (lit 50 ≤ UnitsConsumed r)%Qc ∧ (0 ≤ Cost r)%Qc
                   ∧ generated_record r) rs.
Proof.
  destruct (sample_rows_returns w) as (rs & w1 & Hrun & Hlab & Hok & Hh & Hm & Hs).
  assert (length rs = 60) as Hlen.
  { rewrite <- (length_fmap (λ r, (Month r, UnitName r)) rs).
    fold (record_labels rs). by rewrite Hlab. }
  assert (pd_DataFrame rs = table_frame rs) as Hframe by (by destruct rs).
  exists rs, (mkWorld (heap w ++ [table_frame rs]) (manual_data w1)
                (random_state w1) (screen w1)).
  split; [|split; [|split; [|split]]].
  - unfold create_sample_data, mbind, M_bind. rewrite Hrun.
    unfold new_frame. by rewrite Hh, Hframe.
  - done.
  - done.
  - done.
  - eapply Forall_impl; [|exact Hok].
    intros r (Hg & H50 & H0). split; [exact H50|]. split; [exact H0|exact Hg].
Qed.



(** ** Running a sequence *)

Lemma bind_Ok {A B} (m : M A) (k : A → M B) (w w' : World) (a : A) :
  m w = (Ok a, w') → (m ≫= k) w = k a w'.
Proof. intros H. unfold mbind, M_bind. by rewrite H. Qed.

Lemma bind_Stopped {A B} (m : M A) (k : A → M B) (w w' : World) :
  m w = (Stopped, w') → (m ≫= k) w = (Stopped, w').
Proof. intros H. unfold mbind, M_bind. by rewrite H. Qed.

Lemma bind_Raised {A B} (m : M A) (k : A → M B) (w w' : World) :
  m w = (Raised, w') → (m ≫= k) w = (Raised, w').
Proof. intros H. unfold mbind, M_bind. by rewrite H. Qed.

Lemma frame_Some (l : nat) (d : DataFrame) (w : World) :
  heap w !! l = Some d → frame l w = (Ok d, w).
Proof. intros H. unfold frame. by rewrite H. Qed.

Lemma drawn_drawn (w : World) (xs ys : list Widget) :
  drawn (drawn w xs) ys = drawn w (xs ++ ys).
Proof. unfold drawn; simpl. by rewrite <- app_assoc. Qed.

Lemma show_drawn (x : Widget) (w : World) : show x w = (Ok (), drawn w [x]).
Proof. done. Qed.

Lemma data_preview_run (df : nat) (d : DataFrame) (w : World) :
  heap w !! df = Some d →
  data_preview df w
  = (Ok (), drawn w [st_subheader "Data Preview"; st_dataframe d]).
Proof.
  intros Hd. unfold data_preview.
  rewrite (bind_Ok _ _ _ _ _ (show_drawn _ w)). cbv beta.
  rewrite (bind_Ok _ _ _ _ _ (frame_Some df d (drawn w _) Hd)). cbv beta.
  by rewrite show_drawn, drawn_drawn.
Qed.

(** ** Validation *)

Lemma has_all_columns_spec (d : DataFrame) :
  forallb (has_column d) required_columns = true
  ↔ ∀ c, c ∈ required_columns → c ∈ columns d.
Proof.
  rewrite forallb_forall. unfold has_column. split.
  - intros H c Hc. apply list_elem_of_In in Hc.
    by apply H, bool_decide_eq_true in Hc.
  - intros H c Hc. apply bool_decide_eq_true, H. by apply list_elem_of_In.
Qed.

Lemma message_mentions_required (c : string) :
  c ∈ required_columns → mentions missing_columns_message c.
Proof.
  unfold required_columns. rewrite !elem_of_cons, elem_of_nil.
  intros [->|[->|[->|[->|[]]]]].
  - by exists "CSV file must contain columns: ", ", UnitName, UnitsConsumed, Cost".
  - by exists "CSV file must contain columns: Month, ", ", UnitsConsumed, Cost".
  - by exists "CSV file must contain columns: Month, UnitName, ", ", Cost".
  - by exists "CSV file must contain columns: Month, UnitName, UnitsConsumed, ", EmptyString.
Qed.

(** Claim C1. When the table lacks one of the four required columns, the
    run stops at the validation: after the preview the only thing drawn
    is the error message, which contains the name of every missing
    column; no indicator, chart, table or download follows and no derived
    table is made. *)
Theorem missing_column_stops_the_dashboard
    (df : nat) (d : DataFrame) (inp : Inputs) (w : World) (missing : string) :
  heap w !! df = Some d →
  missing ∈ required_columns → missing ∉ columns d →
  dashboard df inp w
  = (Stopped, drawn w [st_subheader "Data Preview"; st_dataframe d;
                       st_error missing_columns_message])
  ∧ ∀ c, c ∈ required_columns → c ∉ columns d →
         mentions missing_columns_message c.
Proof.
  intros Hd Hreq Hmiss. split; [|by intros c Hc _; apply message_mentions_required].
  assert (forallb (has_column d) required_columns = false) as Hval.
  { apply not_true_is_false. rewrite has_all_columns_spec. naive_solver. }
  unfold dashboard.
  rewrite (bind_Ok _ _ _ _ _ (data_preview_run df d w Hd)). cbv beta.
  apply bind_Stopped. unfold validate.
  rewrite (bind_Ok _ _ _ _ _ (frame_Some df d (drawn w _) Hd)). cbv beta.
  rewrite Hval, (bind_Ok _ _ _ _ _ (show_drawn _ _)). cbv beta.
  unfold st_stop. by rewrite drawn_drawn.
Qed.

Lemma missing_column_stops_the_dashboard_witness :
  main (upload file_without_Cost) example_world
  = (Stopped,
     mkWorld
       [mkDataFrame ["Month"; "UnitName"; "UnitsConsumed"]
          [[Str "January"; Str "Kitchen"; Num (lit 100)]]]
       None (random_state example_world)
       [st_title "⚡ Electricity Consumption Dashboard";
        st_markdown "Track electricity usage and costs per household or department";
        st_sidebar_header "Data Input Options";
        st_sidebar_success "File uploaded successfully!";
        st_subheader "Data Preview";
        st_dataframe (mkDataFrame ["Month"; "UnitName"; "UnitsConsumed"]
                        [[Str "January"; Str "Kitchen"; Num (lit 100)]]);
        st_error missing_columns_message])
  ∧ mentions missing_columns_message "Cost".
Proof.
  set (d := mkDataFrame ["Month"; "UnitName"; "UnitsConsumed"]
              [[Str "January"; Str "Kitchen"; Num (lit 100)]]).
  set (w := mkWorld [d] None (random_state example_world)
              [st_title "⚡ Electricity Consumption Dashboard";
               st_markdown "Track electricity usage and costs per household or department";
               st_sidebar_header "Data Input Options";
               st_sidebar_success "File uploaded successfully!"]).
  destruct (missing_column_stops_the_dashboard 0 d (upload file_without_Cost) w "Cost")
    as [Hrun Hmsg].
  - reflexivity.
  - unfold required_columns. rewrite !elem_of_cons. tauto.
  - simpl. rewrite !elem_of_cons, elem_of_nil. intros [?|[?|[?|[]]]]; discriminate.
  - split.
    + assert (read_csv file_without_Cost = inr d) as Hread.
      { apply (bool_decide_unpack _). vm_compute. exact I. }
      unfold main.
      rewrite (bind_Ok _ _ _ _ _ (show_drawn _ _)). cbv beta.
      rewrite (bind_Ok _ _ _ _ _ (show_drawn _ _)). cbv beta.
      rewrite (bind_Ok _ _ _ _ _ (show_drawn _ _)). cbv beta.
      rewrite (bind_Ok _ _ _ w 0); [exact Hrun|].
      unfold load_data, upload. cbn [input_method uploaded_file]. rewrite Hread.
      reflexivity.
    + apply Hmsg.
      * unfold required_columns. rewrite !elem_of_cons. tauto.
      * simpl. rewrite !elem_of_cons, elem_of_nil. intros [?|[?|[?|[]]]]; discriminate.
Defined.

(** ** Manual entries *)

(** Claim C10. A run adds an entry to the list kept in the session only
    when the form was submitted with a unit name that is not empty, and
    then it adds the submitted record at the end; with an empty unit name
    (or without a submission) the list, and the whole world, stay as they
    are. *)
Theorem manual_entry_needs_unit_name (inp : Inputs) (w : World) :
  (form_unit_name inp = EmptyString → manual_entry inp w = (Ok (), w))
  ∧ (form_submitted inp = false → manual_entry inp w = (Ok (), w))
  ∧ (form_submitted inp = true → form_unit_name inp ≠ EmptyString →
     manual_data (manual_entry inp w).2
     = Some (default [] (manual_data w) ++ [form_entry inp])).
Proof.
  unfold manual_entry. split; [|split].
  - intros ->. by rewrite andb_false_r.
  - by intros ->.
  - intros -> Hne. apply String.eqb_neq in Hne. by rewrite Hne.
Qed.

Lemma manual_entry_needs_unit_name_witness :
  manual_entry (upload file_without_Cost) example_world = (Ok (), example_world)
  ∧ manual_data
      (manual_entry
         (mkInputs ManualDataEntry None "March" "Attic" (lit 12.5) (lit 1.5) true
            DetailedRecords false "20240101_120000" "2024-01-01 12:00:00")
         example_world).2
    = Some [mkUsageRecord "March" "Attic" (lit 12.5) (lit 1.5)].
Proof.
  split.
  - by apply (manual_entry_needs_unit_name (upload file_without_Cost) example_world).
  - by apply (manual_entry_needs_unit_name
                (mkInputs ManualDataEntry None "March" "Attic" (lit 12.5) (lit 1.5) true
                   DetailedRecords false "20240101_120000" "2024-01-01 12:00:00")
                example_world).
Defined.

(** ** The tables that exist are never written to *)

Section keeps.
Context (H : list DataFrame) (S : list Widget).

Lemma keeps_ret {A} (a : A) (fresh : A → Prop) : fresh a → keeps H S (mret a) fresh.
Proof. intros Ha w Hw Hs. split; [done|]. split; [done|]. by intros ? [= <-]. Qed.

Lemma keeps_bind {A B} (m : M A) (k : A → M B) (fr : A → Prop) (fr' : B → Prop) :
  keeps H S m fr → (∀ a, fr a → keeps H S (k a) fr') → keeps H S (m ≫= k) fr'.
Proof.
  intros Hm Hk w Hw Hs. destruct (Hm w Hw Hs) as (Hpre & Hscr & Hfr).
  unfold mbind, M_bind. destruct (m w) as [[a| |] w1]; simpl in *.
  - by apply Hk; [apply Hfr| |].
  - by repeat split.
  - by repeat split.
Qed.

Lemma keeps_weaken {A} (m : M A) (fr fr' : A → Prop) :
  keeps H S m fr → (∀ a, fr a → fr' a) → keeps H S m fr'.
Proof.
  intros Hm Hfr w Hw Hs. destruct (Hm w Hw Hs) as (? & ? & ?). repeat split; auto.
Qed.

Lemma keeps_show (x : Widget) : keeps H S (show x) any.
Proof.
  intros w Hw Hs. split; [done|]. split; [|done]. simpl. by apply prefix_app_r.
Qed.

Lemma keeps_py {A} (o : option A) : keeps H S (py o) any.
Proof. intros w Hw Hs. by destruct o. Qed.

Lemma keeps_st_stop {A} : keeps H S (@st_stop A) any.
Proof. by intros w Hw Hs. Qed.

Lemma keeps_frame (l : nat) : keeps H S (frame l) any.
Proof. intros w Hw Hs. unfold frame. by destruct (heap w !! l). Qed.

Lemma keeps_new_frame (d : DataFrame) : keeps H S (new_frame d) (above H).
Proof.
  intros w [k Hk] Hs. unfold new_frame, above; simpl. split; [|split; [done|]].
  - exists (k ++ [d]). by rewrite Hk, app_assoc.
  - intros ? [= <-]. rewrite Hk, length_app. lia.
Qed.

Lemma keeps_store_frame (l : nat) (d : DataFrame) :
  above H l → keeps H S (store_frame l d) any.
Proof.
  intros Hl w [k Hk] Hs. unfold store_frame; simpl. split; [|done].
  exists (<[l - length H:=d]> k). rewrite Hk. by apply insert_app_r_alt.
Qed.

Lemma keeps_on_frame {A} (l : nat) (f : DataFrame → option A) :
  keeps H S (on_frame l f) any.
Proof.
  eapply keeps_bind; [apply keeps_frame|]. intros d _. apply keeps_py.
Qed.

Lemma keeps_derive (l : nat) (f : DataFrame → option DataFrame) :
  keeps H S (derive l f) (above H).
Proof.
  eapply keeps_bind; [apply keeps_on_frame|]. intros d _. apply keeps_new_frame.
Qed.

Lemma keeps_mutate (l : nat) (f : DataFrame → option DataFrame) :
  above H l → keeps H S (mutate l f) any.
Proof.
  intros Hl. eapply keeps_bind; [apply keeps_on_frame|].
  intros d _. by apply keeps_store_frame.
Qed.

Lemma keeps_chart (kind : string) (l : nat) (x y title : string) :
  keeps H S (chart kind l x y title) any.
Proof.
  eapply keeps_bind; [apply keeps_frame|]. intros d _. apply keeps_show.
Qed.

Lemma keeps_next_variate : keeps H S next_variate any.
Proof. by intros w Hw Hs. Qed.

Lemma keeps_for_each {A B} (l : list A) (body : B → A → M B) (acc : B) :
  (∀ acc x, keeps H S (body acc x) any) → keeps H S (for_each l body acc) any.
Proof.
  intros Hbody. revert acc. induction l as [|x l IH]; intros acc; simpl.
  - by apply keeps_ret.
  - eapply keeps_bind; [apply Hbody|]. intros acc' _. apply IH.
Qed.

End keeps.

Create HintDb keeps.
#[export] Hint Resolve keeps_show keeps_py keeps_st_stop keeps_frame keeps_new_frame
  keeps_store_frame keeps_on_frame keeps_derive keeps_mutate keeps_chart
  keeps_next_variate : keeps.

(** One statement of a sequence: the first command by a known rule, then
    the rest with what is known of its result. *)
Ltac keeps_step :=
  cbv zeta;
  lazymatch goal with
  | |- keeps _ _ (mret _) _ => apply keeps_ret; first [exact I | by auto]
  | |- keeps _ _ (_ ≫= _) _ =>
      eapply keeps_bind; [solve [eauto with keeps]|]; intros ? ?
  | |- keeps _ _ _ _ => solve [eauto with keeps]
  end.

Ltac keeps_all := repeat keeps_step.

Lemma keeps_monthly_steps (H : list DataFrame) (S : list Widget) (df : nat) (val : string) :
  keeps H S (monthly_steps df val) (above H).
Proof. unfold monthly_steps. keeps_all. Qed.

Lemma keeps_validate (H : list DataFrame) (S : list Widget) (df : nat) : keeps H S (validate df) any.
Proof.
  unfold validate. keeps_step. destruct (forallb _ _); keeps_all.
Qed.

Lemma keeps_data_preview (H : list DataFrame) (S : list Widget) (df : nat) : keeps H S (data_preview df) any.
Proof. unfold data_preview. keeps_all. Qed.

Lemma keeps_key_performance_indicators (H : list DataFrame) (S : list Widget) (df : nat) :
  keeps H S (key_performance_indicators df) any.
Proof. unfold key_performance_indicators. keeps_all. Qed.

#[export] Hint Resolve keeps_monthly_steps keeps_validate keeps_data_preview
  keeps_key_performance_indicators : keeps.

Lemma keeps_visualizations (H : list DataFrame) (S : list Widget) (df : nat) :
  keeps H S (visualizations df) (λ views, above H views.1 ∧ above H views.2).
Proof. unfold visualizations. keeps_all. Qed.

Lemma keeps_detailed_analysis (H : list DataFrame) (S : list Widget) (df : nat) (inp : Inputs) :
  keeps H S (detailed_analysis df inp) any.
Proof. unfold detailed_analysis. destruct (analysis_option inp); keeps_all. Qed.

Lemma keeps_export_csv (H : list DataFrame) (S : list Widget) (df : nat) (inp : Inputs) :
  keeps H S (export_csv df inp) any.
Proof. unfold export_csv. keeps_all. Qed.

Lemma keeps_summary_report (H : list DataFrame) (S : list Widget) (inp : Inputs) (k : KPIs)
    (unit_data monthly_data : nat) :
  keeps H S (summary_report inp k unit_data monthly_data) any.
Proof. unfold summary_report. destruct (generate_summary_report inp); keeps_all. Qed.

#[export] Hint Resolve keeps_visualizations keeps_detailed_analysis keeps_export_csv
  keeps_summary_report : keeps.

Lemma keeps_analysis (H : list DataFrame) (S : list Widget) (df : nat) (inp : Inputs) :
  keeps H S (analysis df inp) any.
Proof. unfold analysis. keeps_all. Qed.

#[export] Hint Resolve keeps_analysis : keeps.

Lemma keeps_dashboard (H : list DataFrame) (S : list Widget) (df : nat) (inp : Inputs) :
  keeps H S (dashboard df inp) any.
Proof. unfold dashboard. keeps_all. Qed.

Lemma keeps_np_random_normal (H : list DataFrame) (S : list Widget) (loc_ scale : Qc) :
  keeps H S (np_random_normal loc_ scale) any.
Proof. unfold np_random_normal. keeps_all. Qed.

Lemma keeps_np_random_uniform (H : list DataFrame) (S : list Widget) (low high : Qc) :
  keeps H S (np_random_uniform low high) any.
Proof. unfold np_random_uniform. keeps_all. Qed.

#[export] Hint Resolve keeps_np_random_normal keeps_np_random_uniform : keeps.

Lemma keeps_sample_record (H : list DataFrame) (S : list Widget) (month unit_ : string) :
  keeps H S (sample_record month unit_) any.
Proof. unfold sample_record. keeps_all. Qed.

#[export] Hint Resolve keeps_sample_record : keeps.

Lemma keeps_create_sample_data (H : list DataFrame) (S : list Widget) :
  keeps H S create_sample_data (above H).
Proof.
  unfold create_sample_data. eapply keeps_bind; [|intros; apply keeps_new_frame].
  apply keeps_for_each. intros data month. apply keeps_for_each.
  intros data' unit_. keeps_all.
Qed.

Lemma keeps_manual_entry (H : list DataFrame) (S : list Widget) (inp : Inputs) :
  keeps H S (manual_entry inp) any.
Proof.
  intros w Hw Hs. unfold manual_entry. destruct (_ && _); [|done].
  split; [done|]. split; [|done]. simpl. by apply prefix_app_r.
Qed.

Lemma keeps_manual_or_sample (H : list DataFrame) (S : list Widget) : keeps H S manual_or_sample (above H).
Proof.
  intros w Hw Hs. unfold manual_or_sample.
  destruct (manual_data w) as [[|r data]|].
  - by apply keeps_create_sample_data.
  - by apply keeps_new_frame.
  - by apply keeps_create_sample_data.
Qed.

#[export] Hint Resolve keeps_dashboard keeps_create_sample_data keeps_manual_entry
  keeps_manual_or_sample : keeps.

Lemma keeps_load_data (H : list DataFrame) (S : list Widget) (inp : Inputs) :
  keeps H S (load_data inp) (above H).
Proof.
  unfold load_data. destruct (input_method inp).
  - destruct (uploaded_file inp) as [file|]; [destruct (read_csv file)|]; keeps_all.
  - keeps_all.
  - keeps_all.
Qed.

#[export] Hint Resolve keeps_load_data : keeps.

Lemma keeps_main (H : list DataFrame) (S : list Widget) (inp : Inputs) : keeps H S (main inp) any.
Proof. unfold main. keeps_all. Qed.

Lemma keeps_leaves_tables_unchanged {A} (m : M A)
    (fresh : list DataFrame → A → Prop) :
  (∀ H, keeps H [] m (fresh H)) → leaves_tables_unchanged m.
Proof.
  intros Hm w l d Hl.
  destruct (Hm (heap w) w) as [[k Hk] _]; [done|apply prefix_nil|].
  rewrite Hk. by apply lookup_app_l_Some.
Qed.


(** Claim C9. No aggregation and no export writes to a table that exists
    when it starts: the monthly views, the views per unit, the KPIs, the
    detailed tables, the CSV export and the summary report, and with them
    the whole dashboard and the whole run, leave every DataFrame object
    at its address with the columns, rows and order it had, whatever
    the table holds and however the run ends. The one statement that
    writes in place (the assignment of the categorical month column)
    writes to the grouped table made just before it. *)
Theorem aggregations_leave_the_table_unchanged (df : nat) (inp : Inputs) :
  (∀ val, leaves_tables_unchanged (monthly_steps df val))
  ∧ (∀ by_ val, leaves_tables_unchanged (derive df (λ d, groupby_sum d by_ val)))
  ∧ leaves_tables_unchanged (key_performance_indicators df)
  ∧ leaves_tables_unchanged (visualizations df)
  ∧ leaves_tables_unchanged (detailed_analysis df inp)
  ∧ leaves_tables_unchanged (export_csv df inp)
  ∧ (∀ k unit_data monthly_data,
       leaves_tables_unchanged (summary_report inp k unit_data monthly_data))
  ∧ leaves_tables_unchanged (dashboard df inp)
  ∧ leaves_tables_unchanged (main inp).
Proof.
  split; [|split; [|split; [|split; [|split; [|split; [|split; [|split]]]]]]].
  - intros val. apply (keeps_leaves_tables_unchanged _ above).
    intros H. apply keeps_monthly_steps.
  - intros by_ val. apply (keeps_leaves_tables_unchanged _ above).
    intros H. apply keeps_derive.
  - apply (keeps_leaves_tables_unchanged _ (λ _, any)).
    intros H. apply keeps_key_performance_indicators.
  - apply (keeps_leaves_tables_unchanged _
             (λ H views, above H views.1 ∧ above H views.2)).
    intros H. apply keeps_visualizations.
  - apply (keeps_leaves_tables_unchanged _ (λ _, any)).
    intros H. apply keeps_detailed_analysis.
  - apply (keeps_leaves_tables_unchanged _ (λ _, any)).
    intros H. apply keeps_export_csv.
  - intros k unit_data monthly_data.
    apply (keeps_leaves_tables_unchanged _ (λ _, any)).
    intros H. apply keeps_summary_report.
  - apply (keeps_leaves_tables_unchanged _ (λ _, any)).
    intros H. apply keeps_dashboard.
  - apply (keeps_leaves_tables_unchanged _ (λ _, any)).
    intros H. apply keeps_main.
Qed.

(** ** The views of a table of records can always be computed *)

Lemma value_rows_nth_1 (rws : list (list Cell)) :
  value_rows rws → Forall (λ c, ∃ x, c = Num x) ((λ r, nth 1 r NaN) <$> rws).
Proof.
  intros Hv. apply Forall_fmap. eapply Forall_impl; [|exact Hv].
  intros r (c & x & ->). by exists x.
Qed.

Lemma one_kind_Num (s : list Cell) :
  Forall (λ c, ∃ x, c = Num x) s → one_kind s = true.
Proof.
  intros Hs. destruct Hs as [|c s [x ->] Hs]; [done|]. simpl.
  induction Hs as [|c s [y ->] _ IH]; [done|]. simpl. exact IH.
Qed.

Lemma filter_value_rows_present (rws : list (list Cell)) :
  value_rows rws → filter (λ r, notna (nth 1 r NaN) = true) rws = rws.
Proof.
  intros Hv. apply filter_all. eapply Forall_impl; [|exact Hv].
  by intros r (c & x & ->).
Qed.

Lemma filter_value_rows_missing (rws : list (list Cell)) :
  value_rows rws → filter (λ r, notna (nth 1 r NaN) = false) rws = [].
Proof.
  induction 1 as [|r rws (c & x & ->) _ IH]; [done|].
  by rewrite filter_cons_False.
Qed.

Lemma value_rows_perm (rws rws' : list (list Cell)) :
  rws ≡ₚ rws' → value_rows rws → value_rows rws'.
Proof. intros Hp. unfold value_rows. by rewrite Hp. Qed.

Lemma sort_values_value_rows (a b : string) (rws : list (list Cell)) :
  index_of b [a; b] = Some 1 → value_rows rws →
  ∃ rws', sort_values (mkDataFrame [a; b] rws) b = Some (mkDataFrame [a; b] rws')
          ∧ value_rows rws' ∧ length rws' = length rws.
Proof.
  intros Hb Hv. exists (merge_sort (row_le 1) rws). split; [|split].
  - unfold sort_values. cbn [columns rows]. rewrite Hb. cbn [mbind option_bind].
    rewrite filter_value_rows_present, filter_value_rows_missing by done.
    rewrite one_kind_Num by (by apply value_rows_nth_1).
    by rewrite app_nil_r.
  - eapply value_rows_perm; [|exact Hv]. symmetry. apply merge_sort_Permutation.
  - by rewrite merge_sort_Permutation.
Qed.

Lemma nlargest_value_rows (n : nat) (a b : string) (rws : list (list Cell)) :
  index_of b [a; b] = Some 1 → value_rows rws →
  ∃ rws', nlargest n (mkDataFrame [a; b] rws) b = Some (mkDataFrame [a; b] rws').
Proof.
  intros Hb Hv. eexists. unfold nlargest. cbn [columns rows]. rewrite Hb.
  cbn [mbind option_bind].
  rewrite filter_value_rows_present by done.
  by rewrite one_kind_Num by (by apply value_rows_nth_1).
Qed.

Lemma arg_best_Num (better : Qc → Qc → bool) (s : list Cell) :
  Forall (λ c, ∃ x, c = Num x) s →
  ∀ (best : option (nat * Qc)) (i : nat),
    (∀ j y, best = Some (j, y) → j < i) →
    ∃ r, arg_best better best i s = Some r
         ∧ (∀ j, r = Some j → j < i + length s)
         ∧ (is_Some best ∨ s ≠ [] → is_Some r).
Proof.
  induction 1 as [|c s [x ->] _ IH]; intros best i Hbest.
  - exists (fst <$> best). split; [done|]. split.
    + intros j Hj. destruct best as [[j' y]|]; [|done].
      injection Hj as <-. specialize (Hbest j' y eq_refl). simpl. lia.
    + intros [[[j y] ->]|?]; [by eexists|done].
  - simpl.
    assert (∀ best', (∀ j y, best' = Some (j, y) → j < S i) → is_Some best' →
              ∃ r, arg_best better best' (S i) s = Some r
                   ∧ (∀ j, r = Some j → j < i + S (length s))
                   ∧ (is_Some best ∨ Num x :: s ≠ [] → is_Some r)) as Hnext.
    { intros best' Hb' Hsome. destruct (IH best' (S i) Hb') as (r & Hr & Hlt & Hs).
      exists r. split; [done|]. split.
      - intros j Hj. specialize (Hlt j Hj). lia.
      - intros _. apply Hs. by left. }
    destruct best as [[j y]|].
    + destruct (better x y).
      * apply Hnext; [|by eexists]. intros ? ? [= <- <-]. lia.
      * apply Hnext; [|by eexists]. intros ? ? [= <- <-].
        specialize (Hbest j y eq_refl). lia.
    + apply Hnext; [|by eexists]. intros ? ? [= <- <-]. lia.
Qed.

Lemma idx_best_value_rows (better : Qc → Qc → bool) (a b : string)
    (rws : list (list Cell)) :
  index_of b [a; b] = Some 1 → index_of a [a; b] = Some 0 →
  value_rows rws → rws ≠ [] →
  is_Some (s ← getitem (mkDataFrame [a; b] rws) b;
           i ← mjoin (arg_best better None 0 s);
           loc (mkDataFrame [a; b] rws) i a).
Proof.
  intros Hb Ha Hv Hne. unfold getitem, loc. cbn [columns rows]. rewrite Hb, Ha.
  cbn [mbind option_bind].
  destruct (arg_best_Num better _ (value_rows_nth_1 rws Hv) None 0)
    as (r & -> & Hlt & Hsome); [done|].
  destruct Hsome as [i ->].
  { right. by destruct rws. }
  cbn [mjoin option_join mbind option_bind].
  specialize (Hlt i eq_refl). rewrite length_fmap in Hlt. simpl in Hlt.
  destruct (lookup_lt_is_Some_2 rws i Hlt) as [r Hr]. rewrite Hr.
  cbn [mbind option_bind].
  assert (r ∈ rws) as Hin by (by eapply list_elem_of_lookup_2).
  destruct (proj1 (list.Forall_forall _ _) Hv r Hin) as (c & x & ->).
  by eexists.
Qed.

Lemma Series_numbers_Num {A} (f : A → Qc) (l : list A) :
  Series_numbers ((λ a, Num (f a)) <$> l) = Some (f <$> l).
Proof.
  unfold Series_numbers. rewrite filter_notna_all.
  - apply mapM_cell_number_Num.
  - apply Forall_fmap, Forall_true. done.
Qed.

Lemma aggregate_Num {A} (a : Agg) (f : A → Qc) (l : list A) :
  is_Some (aggregate a ((λ a, Num (f a)) <$> l)).
Proof. unfold aggregate. rewrite Series_numbers_Num. by eexists. Qed.

Lemma groupby_agg_table (g : UsageRecord → string) (by_ : string)
    (stats : list (string * Agg)) (names : list string) rs :
  getitem (table_frame rs) by_ = Some ((λ r, Str (g r)) <$> rs) →
  Forall (λ ca, ∃ f : UsageRecord → Qc,
            getitem (table_frame rs) ca.1 = Some ((λ r, Num (f r)) <$> rs)) stats →
  length names = length stats →
  is_Some (groupby_agg (table_frame rs) by_ stats names).
Proof.
  intros Hby Hstats Hlen. unfold groupby_agg.
  rewrite Hby. cbn [mbind option_bind].
  rewrite group_keys_labels. cbn [mbind option_bind].
  destruct (mapM _ stats) as [cols|] eqn:Hcols.
  2:{ apply mapM_None in Hcols. apply list.Exists_exists in Hcols as (ca & Hca & Hnone).
      destruct (proj1 (list.Forall_forall _ _) Hstats ca Hca) as (f & Hf).
      by rewrite Hf in Hnone. }
  cbn [mbind option_bind].
  assert (Forall (λ av : Agg * list Cell, ∃ f : UsageRecord → Qc,
                    av.2 = (λ r, Num (f r)) <$> rs) cols) as Hnum.
  { apply mapM_Some_1 in Hcols. clear Hlen.
    induction Hcols as [|ca av stats cols Hav _ IH]; [constructor|].
    apply Forall_cons_1 in Hstats as [(f & Hf) Hstats].
    constructor; [|by apply IH].
    rewrite Hf in Hav. injection Hav as <-. by exists f. }
  destruct (mapM _ (Str <$> key_labels g rs)) as [body|] eqn:Hbody.
  - cbn [mbind option_bind]. rewrite bool_decide_eq_true_2 by done. by eexists.
  - apply mapM_None in Hbody. apply list.Exists_exists in Hbody as (k & Hk & Hnone).
    apply list_elem_of_fmap in Hk as (label & -> & _).
    assert (is_Some (mapM (λ av : Agg * list Cell,
               aggregate av.1 (group_values (Str label)
                 (zip ((λ r, Str (g r)) <$> rs) av.2))) cols)) as [cells Hcells].
    { apply mapM_is_Some_2. eapply Forall_impl; [|exact Hnum].
      intros [a vs] (f & Hf). simpl in *. subst vs.
      rewrite group_values_key. apply aggregate_Num. }
    by rewrite Hcells in Hnone.
Qed.

(** ** Runs that end normally *)

Lemma grows_refl (w : World) : grows w w.
Proof. by intros l d. Qed.


Lemma returns_show (x : Widget) (w : World) (Q : () → World → Prop) :
  Q () (drawn w [x]) → returns (show x) w Q.
Proof. intros HQ. by exists (), (drawn w [x]). Qed.

Lemma returns_py {A} (o : option A) (a : A) (w : World) (Q : A → World → Prop) :
  o = Some a → Q a w → returns (py o) w Q.
Proof. intros -> HQ. by exists a, w. Qed.

Lemma returns_frame (l : nat) (d : DataFrame) (w : World) (Q : DataFrame → World → Prop) :
  heap w !! l = Some d → Q d w → returns (frame l) w Q.
Proof. intros Hl HQ. exists d, w. split; [by apply frame_Some|done]. Qed.

Lemma returns_on_frame {A} (l : nat) (f : DataFrame → option A) (d : DataFrame)
    (a : A) (w : World) (Q : A → World → Prop) :
  heap w !! l = Some d → f d = Some a → Q a w → returns (on_frame l f) w Q.
Proof.
  intros Hl Hf HQ. apply returns_bind.
  eapply returns_frame; [done|]. by eapply returns_py.
Qed.

Lemma returns_derive (l : nat) (f : DataFrame → option DataFrame) (d d' : DataFrame)
    (w : World) (Q : nat → World → Prop) :
  heap w !! l = Some d → f d = Some d' →
  (∀ l' w', grows w w' → heap w !! l' = None → heap w' !! l' = Some d' → Q l' w') →
  returns (derive l f) w Q.
Proof.
  intros Hl Hf HQ. apply returns_bind.
  eapply returns_on_frame; [done..|].
  eexists _, _. split; [reflexivity|]. apply HQ; simpl.
  - intros l0 d0 H0. by apply lookup_app_l_Some.
  - by apply lookup_ge_None_2.
  - by rewrite lookup_app_r, Nat.sub_diag.
Qed.

Lemma returns_mutate (l : nat) (f : DataFrame → option DataFrame) (d d' : DataFrame)
    (w : World) (Q : () → World → Prop) :
  heap w !! l = Some d → f d = Some d' →
  (∀ w', (∀ l0 d0, l0 ≠ l → heap w !! l0 = Some d0 → heap w' !! l0 = Some d0) →
         heap w' !! l = Some d' → Q () w') →
  returns (mutate l f) w Q.
Proof.
  intros Hl Hf HQ. apply returns_bind.
  eapply returns_on_frame; [done..|].
  eexists _, _. split; [reflexivity|]. apply HQ; simpl.
  - intros l0 d0 Hne H0. by rewrite list_lookup_insert_ne.
  - apply list_lookup_insert_eq. by eapply lookup_lt_Some.
Qed.

Lemma returns_chart (kind : string) (l : nat) (x y title : string) (d : DataFrame)
    (w : World) (Q : () → World → Prop) :
  heap w !! l = Some d →
  Q () (drawn w [st_plotly_chart (mkChart kind d x y title)]) →
  returns (chart kind l x y title) w Q.
Proof.
  intros Hl HQ. apply returns_bind.
  eapply returns_frame; [done|]. by apply returns_show.
Qed.

(** The four statements of a monthly view compute [monthly_view] of the
    table they start from, into a new object. *)
Lemma monthly_steps_returns (df : nat) (val : string) (d out : DataFrame)
    (w : World) (Q : nat → World → Prop) :
  heap w !! df = Some d → monthly_view d val = Some out →
  (∀ l w', grows w w' → heap w' !! l = Some out → Q l w') →
  returns (monthly_steps df val) w Q.
Proof.
  intros Hd Hview HQ. unfold monthly_view in Hview.
  destruct (groupby_sum d "Month" val) as [g|] eqn:Hg; [|done].
  cbn [mbind option_bind] in Hview.
  destruct (getitem g "Month") as [labels|] eqn:Hlab; [|done].
  cbn [mbind option_bind] in Hview.
  destruct (setitem g "Month" _) as [recoded|] eqn:Hset; [|done].
  cbn [mbind option_bind] in Hview.
  unfold monthly_steps. apply returns_bind.
  eapply returns_derive; [done..|]. intros l1 w1 Hg1 Hfresh1 Hl1.
  apply returns_bind. eapply returns_on_frame; [done..|].
  apply returns_bind. eapply returns_mutate; [done..|]. intros w2 Hother Hl2.
  eapply returns_derive; [done..|]. intros l3 w3 Hg3 _ Hl3.
  apply HQ; [|done].
  intros l0 d0 H0. apply Hg3, Hother; [|by apply Hg1].
  intros ->. congruence.
Qed.

Ltac show_steps := repeat (apply returns_bind, returns_show; cbv beta).

Lemma validate_returns (df : nat) rs (w : World) (Q : () → World → Prop) :
  heap w !! df = Some (table_frame rs) → Q () w → returns (validate df) w Q.
Proof.
  intros Hd HQ. unfold validate. apply returns_bind.
  eapply returns_frame; [exact Hd|].
  change (forallb (has_column (table_frame rs)) required_columns) with true.
  by apply returns_ret.
Qed.

Lemma key_performance_indicators_returns (df : nat) rs (w : World)
    (Q : KPIs → World → Prop) :
  heap w !! df = Some (table_frame rs) →
  (∀ k w', grows w w' → Q k w') →
  returns (key_performance_indicators df) w Q.
Proof.
  intros Hd HQ. unfold key_performance_indicators.
  apply returns_bind.
  eapply returns_on_frame; [exact Hd|apply total_units_table|]. cbv beta.
  apply returns_bind.
  eapply returns_on_frame; [exact Hd|apply total_cost_table|]. cbv beta.
  apply returns_bind.
  eapply returns_py; [apply avg_cost_per_unit_value|]. cbv beta.
  apply returns_bind.
  eapply returns_on_frame; [exact Hd|apply num_departments_table|]. cbv beta.
  show_steps. apply returns_ret. apply HQ. by intros l d.
Qed.

Lemma monthly_rows_value_rows (f : UsageRecord → Qc) rs (ms : list string) :
  value_rows (monthly_row f rs <$> ms).
Proof.
  apply Forall_fmap, Forall_true. intros m. unfold monthly_row. by eexists _, _.
Qed.

Lemma group_rows_value_rows (g : UsageRecord → string) (f : UsageRecord → Qc)
    rs (ks : list string) :
  value_rows (group_row g f rs <$> ks).
Proof.
  apply Forall_fmap, Forall_true. intros k. unfold group_row. by eexists _, _.
Qed.

Lemma month_labels_nonempty rs : rs ≠ [] → calendar_sorted (month_labels rs) ≠ [].
Proof.
  intros Hrs Hnil.
  assert (remove_dups (Month <$> rs) ≡ₚ []) as Hp
    by (by rewrite <- month_labels_perm, <- calendar_sorted_perm, Hnil).
  apply Permutation_nil_r in Hp.
  destruct rs as [|r rs]; [done|].
  assert (Month r ∈ remove_dups (Month <$> (r :: rs))) as Hin
    by (apply elem_of_remove_dups; left).
  rewrite Hp in Hin. by apply elem_of_nil in Hin.
Qed.

Lemma visualizations_returns (df : nat) rs (w : World)
    (Q : nat * nat → World → Prop) :
  heap w !! df = Some (table_frame rs) →
  (∀ views w', grows w w' →
     (∃ rws, heap w' !! views.1 = Some (mkDataFrame ["Month"; "UnitsConsumed"] rws)
             ∧ value_rows rws ∧ (rs ≠ [] → rws ≠ [])) →
     (∃ rws, heap w' !! views.2 = Some (mkDataFrame ["UnitName"; "UnitsConsumed"] rws)
             ∧ value_rows rws) →
     Q views w') →
  returns (visualizations df) w Q.
Proof.
  intros Hd HQ. unfold visualizations. show_steps.
  apply returns_bind.
  eapply monthly_steps_returns;
    [exact Hd|apply (monthly_view_table UnitsConsumed), getitem_UnitsConsumed|].
  intros monthly_data w1 Hg1 Hm1. cbv beta.
  apply returns_bind. eapply returns_chart; [exact Hm1|]. show_steps.
  apply returns_bind.
  eapply returns_derive;
    [exact (Hg1 _ _ Hd)
    |apply (groupby_sum_table UnitName UnitsConsumed);
       [apply getitem_UnitName|apply getitem_UnitsConsumed]|].
  intros grouped w2 Hg2 _ Hgr2. cbv beta.
  destruct (sort_values_value_rows "UnitName" "UnitsConsumed"
              (group_row UnitName UnitsConsumed rs <$> key_labels UnitName rs)
              eq_refl (group_rows_value_rows _ _ _ _))
    as (sorted & Hsort & Hvs & _).
  apply returns_bind.
  eapply returns_derive; [exact Hgr2|exact Hsort|].
  intros unit_data w3 Hg3 _ Hu3. cbv beta.
  apply returns_bind. eapply returns_chart; [exact Hu3|]. show_steps.
  apply returns_bind.
  eapply monthly_steps_returns;
    [exact (Hg3 _ _ (Hg2 _ _ (Hg1 _ _ Hd)))
    |apply (monthly_view_table Cost), getitem_Cost|].
  intros monthly_cost w4 Hg4 Hc4. cbv beta.
  apply returns_bind. eapply returns_chart; [exact Hc4|]. cbv beta.
  apply returns_bind.
  eapply returns_derive;
    [exact (Hg4 _ _ (Hg3 _ _ (Hg2 _ _ (Hg1 _ _ Hd))))
    |apply (groupby_sum_table UnitName Cost);
       [apply getitem_UnitName|apply getitem_Cost]|].
  intros unit_cost w5 Hg5 _ Hu5. cbv beta.
  apply returns_bind. eapply returns_chart; [exact Hu5|]. cbv beta.
  apply returns_ret. apply HQ.
  - intros l d Hl. apply Hg5, Hg4, Hg3, Hg2, Hg1, Hl.
  - eexists. split; [exact (Hg5 _ _ (Hg4 _ _ (Hg3 _ _ (Hg2 _ _ Hm1))))|].
    split; [apply monthly_rows_value_rows|].
    intros Hrs Hnil. apply fmap_nil_inv in Hnil.
    by apply (month_labels_nonempty rs).
  - eexists. split; [exact (Hg5 _ _ (Hg4 _ _ Hu3))|done].
Qed.

Lemma numeric_stat_columns rs (stats : list (string * Agg)) :
  Forall (λ ca, ca.1 = "UnitsConsumed" ∨ ca.1 = "Cost") stats →
  Forall (λ ca, ∃ f : UsageRecord → Qc,
            getitem (table_frame rs) ca.1 = Some ((λ r, Num (f r)) <$> rs)) stats.
Proof.
  intros Hs. eapply Forall_impl; [|exact Hs]. intros [c a] [Hc|Hc]; simpl in *; subst c.
  - exists UnitsConsumed. apply getitem_UnitsConsumed.
  - exists Cost. apply getitem_Cost.
Qed.

Lemma detailed_analysis_returns (df : nat) (inp : Inputs) rs (w : World)
    (Q : () → World → Prop) :
  heap w !! df = Some (table_frame rs) →
  (∀ w', grows w w' → Q () w') →
  returns (detailed_analysis df inp) w Q.
Proof.
  intros Hd HQ. unfold detailed_analysis. destruct (analysis_option inp).
  - edestruct (groupby_agg_table Month "Month" monthly_summary_stats
                 monthly_summary_columns rs) as [summary Hsum];
      [apply getitem_Month|apply numeric_stat_columns|reflexivity|].
    2:{ apply returns_bind. eapply returns_derive; [exact Hd|exact Hsum|].
        intros l w1 Hg1 _ Hl. cbv beta. apply returns_bind.
        eapply returns_frame; [exact Hl|]. apply returns_show. apply HQ.
        intros l0 d0 H0. by apply Hg1. }
    repeat (apply Forall_cons_2; [simpl; auto|]). apply Forall_nil_2.
  - edestruct (groupby_agg_table UnitName "UnitName" dept_summary_stats
                 dept_summary_columns rs) as [summary Hsum];
      [apply getitem_UnitName|apply numeric_stat_columns|reflexivity|].
    2:{ apply returns_bind. eapply returns_derive; [exact Hd|exact Hsum|].
        intros l w1 Hg1 _ Hl. cbv beta. apply returns_bind.
        eapply returns_frame; [exact Hl|]. apply returns_show. apply HQ.
        intros l0 d0 H0. by apply Hg1. }
    repeat (apply Forall_cons_2; [simpl; auto|]). apply Forall_nil_2.
  - apply returns_bind. eapply returns_frame; [exact Hd|]. apply returns_show.
    apply HQ. by intros l d.
Qed.

Lemma export_csv_returns (df : nat) (inp : Inputs) (d : DataFrame) (w : World)
    (Q : () → World → Prop) :
  heap w !! df = Some d →
  Q () (drawn w [st_download_button "Download Data as CSV" (to_csv d)
                   ("electricity_consumption_" +:+ now_compact inp +:+ ".csv")
                   "text/csv"]) →
  returns (export_csv df inp) w Q.
Proof.
  intros Hd HQ. unfold export_csv. apply returns_bind.
  eapply returns_on_frame; [exact Hd|reflexivity|]. by apply returns_show.
Qed.

Lemma summary_report_returns (inp : Inputs) (k : KPIs) (unit_data monthly_data : nat)
    (urows mrows : list (list Cell)) (w : World) (Q : () → World → Prop) :
  heap w !! unit_data = Some (mkDataFrame ["UnitName"; "UnitsConsumed"] urows) →
  value_rows urows →
  heap w !! monthly_data = Some (mkDataFrame ["Month"; "UnitsConsumed"] mrows) →
  value_rows mrows → mrows ≠ [] →
  (∀ w', grows w w' → Q () w') →
  returns (summary_report inp k unit_data monthly_data) w Q.
Proof.
  intros Hu Hvu Hm Hvm Hne HQ. unfold summary_report.
  destruct (generate_summary_report inp).
  2:{ apply returns_ret, HQ, grows_refl. }
  destruct (nlargest_value_rows 3 "UnitName" "UnitsConsumed" urows eq_refl Hvu)
    as (top & Htop).
  destruct (idx_best_value_rows (λ x y, bool_decide (y < x)%Qc)
              "Month" "UnitsConsumed" mrows eq_refl eq_refl Hvm Hne) as [hi Hhi].
  destruct (idx_best_value_rows (λ x y, bool_decide (x < y)%Qc)
              "Month" "UnitsConsumed" mrows eq_refl eq_refl Hvm Hne) as [lo Hlo].
  apply returns_bind. eapply returns_derive; [exact Hu|exact Htop|].
  intros l1 w1 Hg1 _ Hl1. cbv beta.
  apply returns_bind. eapply returns_on_frame; [exact Hl1|reflexivity|]. cbv beta.
  apply returns_bind. eapply returns_on_frame; [exact (Hg1 _ _ Hm)|exact Hhi|]. cbv beta.
  apply returns_bind. eapply returns_on_frame; [exact (Hg1 _ _ Hm)|exact Hlo|]. cbv beta.
  apply returns_show. apply HQ. intros l d Hl. by apply Hg1.
Qed.

Lemma analysis_returns (df : nat) (inp : Inputs) rs (w : World)
    (Q : () → World → Prop) :
  heap w !! df = Some (table_frame rs) → rs ≠ [] →
  (∀ w', grows w w' → Q () w') →
  returns (analysis df inp) w Q.
Proof.
  intros Hd Hrs HQ. unfold analysis.
  apply returns_bind. eapply key_performance_indicators_returns; [exact Hd|].
  intros k w1 Hg1. cbv beta.
  apply returns_bind. eapply visualizations_returns; [exact (Hg1 _ _ Hd)|].
  intros [monthly_data unit_data] w2 Hg2 (mrows & Hm & Hvm & Hne) (urows & Hu & Hvu).
  cbv beta. simpl in Hm, Hu. show_steps.
  apply returns_bind.
  eapply detailed_analysis_returns; [exact (Hg2 _ _ (Hg1 _ _ Hd))|].
  intros w3 Hg3. cbv beta. show_steps.
  apply returns_bind.
  eapply export_csv_returns; [exact (Hg3 _ _ (Hg2 _ _ (Hg1 _ _ Hd)))|]. cbv beta.
  apply returns_bind.
  eapply summary_report_returns;
    [exact (Hg3 _ _ Hu)|exact Hvu|exact (Hg3 _ _ Hm)|exact Hvm|by apply Hne|].
  intros w4 Hg4. cbv beta. show_steps. apply returns_show. apply HQ.
  intros l d Hl. apply Hg4, Hg3, Hg2, Hg1, Hl.
Qed.

(** On a table of records that is not empty the dashboard runs to its
    end. *)
Lemma dashboard_returns (df : nat) (inp : Inputs) rs (w : World)
    (Q : () → World → Prop) :
  heap w !! df = Some (table_frame rs) → rs ≠ [] →
  (∀ w', grows w w' → Q () w') →
  returns (dashboard df inp) w Q.
Proof.
  intros Hd Hrs HQ. unfold dashboard.
  apply returns_bind. exists (), (drawn w [st_subheader "Data Preview";
                                         st_dataframe (table_frame rs)]).
  split; [by apply data_preview_run|].
  apply returns_bind. eapply validate_returns; [exact Hd|].
  eapply analysis_returns; [exact Hd|exact Hrs|].
  intros w' Hg. apply HQ. intros l d Hl. by apply Hg.
Qed.

(** ** An upload that cannot be read *)





Lemma aggregations_leave_the_table_unchanged_witness :
  heap (dashboard 0 (upload EmptyString)
          (mkWorld [table_frame example_records] None
             (random_state example_world) [])).2 !! 0
  = Some (table_frame example_records).
Proof.
  destruct (aggregations_leave_the_table_unchanged 0 (upload EmptyString))
    as (_ & _ & _ & _ & _ & _ & _ & Hdashboard & _).
  by apply Hdashboard.
Defined.

(** ** The tokenizer reads back what the writer wrote *)

Lemma chars_distinct :
  comma ≠ LF ∧ comma ≠ CR ∧ comma ≠ quotechar ∧ LF ≠ CR ∧ LF ≠ quotechar
  ∧ CR ≠ quotechar.
Proof. by repeat split. Qed.

Lemma foldl_tokenizer_app (t : Tokenizer) (l1 l2 : list ascii) :
  foldl tokenizer_step t (l1 ++ l2) = foldl tokenizer_step (foldl tokenizer_step t l1) l2.
Proof. apply foldl_app. Qed.

(** Inside the quotes: every character is kept, a doubled quote is one
    quote. *)
Lemma tokenize_quoted_body (f acc : list ascii) (rec_ : list (list ascii))
    (recs : list (list (list ascii))) :
  foldl tokenizer_step (mkTokenizer IN_QUOTED_FIELD acc rec_ recs) (escape_quotes f)
  = mkTokenizer IN_QUOTED_FIELD (reverse f ++ acc) rec_ recs.
Proof.
  revert acc. induction f as [|c f IH]; intros acc; [done|].
  unfold escape_quotes in *. rewrite bind_cons, foldl_tokenizer_app.
  rewrite reverse_cons, <- app_assoc. simpl app at 2. rewrite <- IH. f_equal.
  destruct (decide (c = quotechar)) as [->|Hc]; simpl.
  - reflexivity.
  - unfold tokenizer_step; simpl. by rewrite decide_False.
Qed.

(** Outside quotes: a field without special characters is kept as it
    is. *)
Lemma tokenize_plain_body (f acc : list ascii) (rec_ : list (list ascii))
    (recs : list (list (list ascii))) :
  Forall (λ c, c ∉ [comma; quotechar; LF; CR]) f →
  foldl tokenizer_step (mkTokenizer IN_FIELD acc rec_ recs) f
  = mkTokenizer IN_FIELD (reverse f ++ acc) rec_ recs.
Proof.
  intros Hf. revert acc. induction Hf as [|c f Hc _ IH]; intros acc; [done|].
  simpl. rewrite reverse_cons, <- app_assoc. simpl app at 2. rewrite <- IH. f_equal.
  rewrite !not_elem_of_cons in Hc. destruct Hc as (? & ? & ? & ? & _).
  unfold tokenizer_step, field_step; simpl. by rewrite !decide_False.
Qed.

Definition at_start (st : TokenizerState) : Prop :=
  st = START_RECORD ∨ st = START_FIELD.

(** A field as the writer writes it, read from the start of a field, up
    to but without the character that ends it: either nothing has been
    read (an empty field without quotes), or the tokenizer is inside the
    field or just after its closing quote; the characters are those of
    the field. *)
Lemma tokenize_field (st : TokenizerState) (f : list ascii)
    (rec_ : list (list ascii)) (recs : list (list (list ascii))) :
  at_start st →
  let t := foldl tokenizer_step (mkTokenizer st [] rec_ recs) (csv_field f) in
  (f = [] ∧ t = mkTokenizer st [] rec_ recs)
  ∨ (f ≠ [] ∧ t = mkTokenizer IN_FIELD (reverse f) rec_ recs)
  ∨ t = mkTokenizer QUOTE_IN_QUOTED_FIELD (reverse f) rec_ recs.
Proof.
  intros Hst. unfold csv_field, needs_quotes. case_bool_decide as Hq; simpl.
  - right. right.
    assert (tokenizer_step (mkTokenizer st [] rec_ recs) quotechar
            = mkTokenizer IN_QUOTED_FIELD [] rec_ recs) as ->.
    { by destruct Hst as [-> | ->]. }
    rewrite foldl_tokenizer_app, tokenize_quoted_body, app_nil_r. reflexivity.
  - apply not_Exists_Forall in Hq; [|intros c; apply _].
    destruct f as [|c f]; [by left|]. right. left. split; [done|].
    apply Forall_cons_1 in Hq as [Hc Hf]. simpl in Hc.
    rewrite !not_elem_of_cons in Hc. destruct Hc as (? & ? & ? & ? & _).
    assert (tokenizer_step (mkTokenizer st [] rec_ recs) c
            = mkTokenizer IN_FIELD [c] rec_ recs) as Hfirst.
    { destruct Hst as [-> | ->]; unfold tokenizer_step, start_step; simpl;
        by rewrite !decide_False. }
    simpl. rewrite Hfirst, tokenize_plain_body; [|done].
    by rewrite reverse_cons.
Qed.

(** A field followed by a comma. *)
Lemma tokenize_field_comma (st : TokenizerState) (f : list ascii)
    (rec_ : list (list ascii)) (recs : list (list (list ascii))) :
  at_start st →
  foldl tokenizer_step (mkTokenizer st [] rec_ recs) (csv_field f ++ [comma])
  = mkTokenizer START_FIELD [] (f :: rec_) recs.
Proof.
  intros Hst. rewrite foldl_tokenizer_app.
  destruct (tokenize_field st f rec_ recs Hst) as [[-> ->]|[[_ ->]| ->]]; simpl.
  - by destruct Hst as [-> | ->].
  - unfold tokenizer_step, field_step, end_field; simpl. by rewrite reverse_involutive.
  - unfold tokenizer_step, field_step, end_field; simpl. by rewrite reverse_involutive.
Qed.

(** A field followed by the end of the line, when the field is not the
    empty first field of its line written without quotes. *)
Lemma tokenize_field_LF (st : TokenizerState) (f : list ascii)
    (rec_ : list (list ascii)) (recs : list (list (list ascii))) :
  at_start st → st = START_FIELD ∨ f ≠ [] →
  foldl tokenizer_step (mkTokenizer st [] rec_ recs) (csv_field f ++ [LF])
  = mkTokenizer START_RECORD [] [] (reverse (f :: rec_) :: recs).
Proof.
  intros Hst Hok. rewrite foldl_tokenizer_app.
  destruct (tokenize_field st f rec_ recs Hst) as [[-> ->]|[[_ ->]| ->]]; simpl.
  - by destruct Hok as [-> | ?].
  - unfold tokenizer_step, field_step, end_line, end_field; simpl.
    by rewrite reverse_involutive.
  - unfold tokenizer_step, field_step, end_line, end_field; simpl.
    by rewrite reverse_involutive.
Qed.

Lemma join_fields_cons (f f' : list ascii) (fs : list (list ascii)) :
  join_fields (f :: f' :: fs) = (f ++ [comma]) ++ join_fields (f' :: fs).
Proof. simpl. by rewrite <- app_assoc. Qed.

(** The fields of a line after the first. *)
Lemma tokenize_more_fields (fs : list (list ascii)) (f : list ascii)
    (rec_ : list (list ascii)) (recs : list (list (list ascii))) :
  foldl tokenizer_step (mkTokenizer START_FIELD [] rec_ recs)
    (join_fields (csv_field <$> f :: fs) ++ [LF])
  = mkTokenizer START_RECORD [] [] (reverse (reverse (f :: fs) ++ rec_) :: recs).
Proof.
  revert f rec_. induction fs as [|f' fs IH]; intros f rec_.
  - simpl join_fields. rewrite tokenize_field_LF; [|by right|by left].
    by rewrite reverse_singleton.
  - rewrite !fmap_cons, join_fields_cons, <- app_assoc.
    rewrite foldl_tokenizer_app, tokenize_field_comma by (by right).
    rewrite <- fmap_cons, IH. do 2 f_equal.
    by rewrite (reverse_cons (f' :: fs) f), <- app_assoc.
Qed.

Lemma csv_line_fields (fs : list (list ascii)) :
  fs ≠ [ [] ] → csv_line fs = join_fields (csv_field <$> fs) ++ [LF].
Proof. intros Hfs. by destruct fs as [|[|c f] [|f' fs]]. Qed.

(** A whole line. *)
Lemma tokenize_line (fs : list (list ascii)) (recs : list (list (list ascii))) :
  fs ≠ [] →
  foldl tokenizer_step (mkTokenizer START_RECORD [] [] recs) (csv_line fs)
  = mkTokenizer START_RECORD [] [] (fs :: recs).
Proof.
  intros Hfs. destruct fs as [|f [|f' fs]]; [done| |].
  - destruct f as [|c f]; [done|].
    rewrite csv_line_fields by done. simpl join_fields.
    rewrite tokenize_field_LF; [done|by left|by right].
  - rewrite csv_line_fields by done.
    rewrite !fmap_cons, join_fields_cons, <- app_assoc.
    rewrite foldl_tokenizer_app, tokenize_field_comma by (by left).
    rewrite <- fmap_cons, tokenize_more_fields. do 2 f_equal.
    by rewrite <- reverse_cons, reverse_involutive.
Qed.

Lemma tokenize_lines (lines : list (list (list ascii))) (recs : list (list (list ascii))) :
  Forall (λ fs, fs ≠ []) lines →
  foldl tokenizer_step (mkTokenizer START_RECORD [] [] recs) (csv_text lines)
  = mkTokenizer START_RECORD [] [] (reverse lines ++ recs).
Proof.
  intros Hl. revert recs. induction Hl as [|fs lines Hfs _ IH]; intros recs; [done|].
  unfold csv_text in *. rewrite bind_cons, foldl_tokenizer_app, tokenize_line by done.
  by rewrite IH, reverse_cons, <- app_assoc.
Qed.

(** Whatever the fields hold, the tokenizer gives back the lines that
    were written, field by field. *)
Lemma tokenize_csv_text (lines : list (list (list ascii))) :
  Forall (λ fs, fs ≠ []) lines → tokenize (csv_text lines) = Some lines.
Proof.
  intros Hl. unfold tokenize. rewrite tokenize_lines by done.
  unfold tokenizer_finish. cbn [tok_state tok_records].
  by rewrite app_nil_r, reverse_involutive.
Qed.

(** ** Reading back the columns *)









(** The text of a table of records, as lines of fields. *)
Lemma tokenize_to_csv rs :
  tokenize (list_ascii_of_string (to_csv (table_frame rs)))
  = Some ((list_ascii_of_string <$> required_columns)
          :: (row_texts <$> (record_row <$> rs))).
Proof.
  unfold to_csv. rewrite list_ascii_of_string_of_list_ascii.
  apply tokenize_csv_text. constructor; [done|].
  apply Forall_fmap, Forall_fmap, Forall_true. done.
Qed.






(** ** The sums of the groups add up to the totals *)





Lemma key_labels_perm (g : UsageRecord → string) rs :
  key_labels g rs ≡ₚ remove_dups (g <$> rs).
Proof. apply merge_sort_Permutation. Qed.

Lemma key_labels_NoDup (g : UsageRecord → string) rs : NoDup (key_labels g rs).
Proof. rewrite key_labels_perm. apply NoDup_remove_dups. Qed.

Lemma elem_of_key_labels (g : UsageRecord → string) rs (k : string) :
  k ∈ key_labels g rs ↔ ∃ r, r ∈ rs ∧ g r = k.
Proof.
  rewrite key_labels_perm, elem_of_remove_dups, list_elem_of_fmap. split.
  - intros (r & -> & Hr). by exists r.
  - intros (r & Hr & <-). by exists r.
Qed.




Lemma sort_values_by_value (a b : string) (rws : list (list Cell)) :
  index_of b [a; b] = Some 1 → value_rows rws →
  sort_values (mkDataFrame [a; b] rws) b
  = Some (mkDataFrame [a; b] (merge_sort (row_le 1) rws)).
Proof.
  intros Hb Hv. unfold sort_values. cbn [columns rows]. rewrite Hb.
  cbn [mbind option_bind].
  rewrite filter_value_rows_present, filter_value_rows_missing by done.
  rewrite one_kind_Num by (by apply value_rows_nth_1).
  by rewrite app_nil_r.
Qed.

Lemma unit_cost_table rs :
  unit_cost (table_frame rs)
  = Some (mkDataFrame ["UnitName"; "Cost"]
            (group_row UnitName Cost rs <$> key_labels UnitName rs)).
Proof.
  unfold unit_cost. apply groupby_sum_table; [apply getitem_UnitName|apply getitem_Cost].
Qed.

Lemma unit_data_table rs :
  unit_data (table_frame rs)
  = Some (mkDataFrame ["UnitName"; "UnitsConsumed"]
            (merge_sort (row_le 1)
               (group_row UnitName UnitsConsumed rs <$> key_labels UnitName rs))).
Proof.
  unfold unit_data.
  rewrite (groupby_sum_table UnitName UnitsConsumed)
    by (apply getitem_UnitName || apply getitem_UnitsConsumed).
  cbn [mbind option_bind].
  apply sort_values_by_value; [done|apply group_rows_value_rows].
Qed.


Lemma monthly_rows_values (f : UsageRecord → Qc) rs (ms : list string) :
  (λ r, nth 1 r NaN) <$> (monthly_row f rs <$> ms)
  = (λ k, Num (sum_over f (filter (λ r, Month r = k) rs))) <$> ms.
Proof. by rewrite <- list_fmap_compose. Qed.


(** ** The views per unit *)

Global Instance string_le_total : Total string_le.
Proof. intros s t. apply String.leb_total. Qed.

Global Instance row_le_total i : Total (row_le i).
Proof. intros r1 r2. apply (total cell_le). Qed.

Global Instance row_ge_total i : Total (row_ge i).
Proof. intros r1 r2. apply (total (row_le i)). Qed.

Lemma key_labels_Sorted (g : UsageRecord → string) rs : Sorted string_le (key_labels g rs).
Proof. apply (Sorted_merge_sort string_le). Qed.

(** A relation that is transitive on the members of a sorted list
    relates each member to all later ones. *)
Lemma Sorted_StronglySorted_on {A} (R : relation A) (P : A → Prop) (l : list A) :
  (∀ x y z, P x → P y → P z → R x y → R y z → R x z) →
  Forall P l → Sorted R l → StronglySorted R l.
Proof.
  intros Htrans HP Hs. induction Hs as [|x l _ IH Hhd]; [constructor|].
  apply Forall_cons_1 in HP as [Hx HP]. specialize (IH HP).
  constructor; [exact IH|].
  destruct Hhd as [|y l Hxy]; [constructor|].
  apply StronglySorted_inv in IH as [_ Hy].
  apply Forall_cons_1 in HP as [Hy' HP].
  constructor; [exact Hxy|].
  apply list.Forall_forall. intros z Hz.
  apply (Htrans x y z); try done.
  - by apply (proj1 (list.Forall_forall _ _) HP).
  - by apply (proj1 (list.Forall_forall _ _) Hy).
Qed.

Lemma row_le_trans_values (r1 r2 r3 : list Cell) :
  (∃ c x, r1 = [c; Num x]) → (∃ c x, r2 = [c; Num x]) → (∃ c x, r3 = [c; Num x]) →
  row_le 1 r1 r2 → row_le 1 r2 r3 → row_le 1 r1 r3.
Proof.
  intros (c1 & x1 & ->) (c2 & x2 & ->) (c3 & x3 & ->). unfold row_le. simpl.
  apply Qcle_trans.
Qed.

Lemma Sorted_value_rows (rws : list (list Cell)) :
  value_rows rws → Sorted (row_le 1) rws →
  ∃ xs, (λ r, nth 1 r NaN) <$> rws = Num <$> xs ∧ Sorted Qcle xs.
Proof.
  intros Hv Hs. induction Hs as [|r rws _ IH Hhd]; [by exists []|].
  apply Forall_cons_1 in Hv as [(c & x & ->) Hv].
  destruct (IH Hv) as (xs & Hxs & Hsorted). exists (x :: xs).
  split; [by rewrite !fmap_cons, Hxs|].
  constructor; [exact Hsorted|].
  destruct Hhd as [|r' rws Hle]; [by destruct xs|].
  apply Forall_cons_1 in Hv as [(c' & x' & ->) _].
  destruct xs as [|y xs]; [done|]. injection Hxs as <- _.
  constructor. exact Hle.
Qed.

(** X2. [unit_data] and [unit_cost] have one row per distinct unit name,
    as many as the indicator [num_departments] counts; [unit_cost] lists
    the units in ascending order of their names (the order of the pie
    chart), [unit_data] in ascending order of the summed consumption (the
    order of the bar chart). *)
Theorem unit_views_one_row_per_unit (rs : list UsageRecord) :
  ∃ (ud uc : DataFrame) (names : list string) (xs : list Qc),
    unit_data (table_frame rs) = Some ud
    ∧ unit_cost (table_frame rs) = Some uc
    ∧ num_departments (table_frame rs) = Some (length (rows ud))
    ∧ num_departments (table_frame rs) = Some (length (rows uc))
    ∧ NoDup names ∧ (∀ k, k ∈ names ↔ k ∈ UnitName <$> rs)
    ∧ Sorted string_le names
    ∧ rows uc = group_row UnitName Cost rs <$> names
    ∧ rows ud ≡ₚ group_row UnitName UnitsConsumed rs <$> names
    ∧ getitem ud "UnitsConsumed" = Some (Num <$> xs)
    ∧ Sorted Qcle xs.
Proof.
  set (names := key_labels UnitName rs).
  set (grouped := group_row UnitName UnitsConsumed rs <$> names).
  assert (length names = distinct_count (UnitName <$> rs)) as Hcount.
  { unfold names. by rewrite key_labels_perm, distinct_count_remove_dups. }
  destruct (Sorted_value_rows (merge_sort (row_le 1) grouped)) as (xs & Hxs & Hsorted).
  { eapply value_rows_perm; [symmetry; apply merge_sort_Permutation|].
    apply group_rows_value_rows. }
  { apply (Sorted_merge_sort (row_le 1)). }
  eexists _, _, names, xs.
  split; [apply unit_data_table|]. split; [apply unit_cost_table|].
  cbn [rows columns]. rewrite num_departments_table.
  split; [|split; [|split; [|split; [|split; [|split; [|split; [|split]]]]]]].
  - f_equal. rewrite merge_sort_Permutation. unfold grouped.
    by rewrite length_fmap.
  - f_equal. by rewrite length_fmap.
  - apply key_labels_NoDup.
  - intros k. unfold names. rewrite elem_of_key_labels, list_elem_of_fmap. split.
    + intros (r & Hr & <-). by exists r.
    + intros (r & -> & Hr). by exists r.
  - apply key_labels_Sorted.
  - done.
  - apply merge_sort_Permutation.
  - unfold getitem. cbn [columns rows]. by rewrite <- Hxs.
  - exact Hsorted.
Qed.

(** ** The summary report: top consumers, highest and lowest month *)

Lemma row_ge_trans_values (r1 r2 r3 : list Cell) :
  (∃ c x, r1 = [c; Num x]) → (∃ c x, r2 = [c; Num x]) → (∃ c x, r3 = [c; Num x]) →
  row_ge 1 r1 r2 → row_ge 1 r2 r3 → row_ge 1 r1 r3.
Proof. intros H1 H2 H3 H12 H23. by apply (row_le_trans_values r3 r2 r1). Qed.

Lemma nlargest_by_value (n : nat) (a b : string) (rws : list (list Cell)) :
  index_of b [a; b] = Some 1 → value_rows rws →
  nlargest n (mkDataFrame [a; b] rws) b
  = Some (mkDataFrame [a; b] (take n (merge_sort (row_ge 1) rws))).
Proof.
  intros Hb Hv. unfold nlargest. cbn [columns rows]. rewrite Hb.
  cbn [mbind option_bind].
  rewrite filter_value_rows_present by done.
  by rewrite one_kind_Num by (by apply value_rows_nth_1).
Qed.

Lemma select_both_columns (a b : string) (rws : list (list Cell)) :
  index_of a [a; b] = Some 0 → index_of b [a; b] = Some 1 → value_rows rws →
  select_columns (mkDataFrame [a; b] rws) [a; b] = Some (mkDataFrame [a; b] rws).
Proof.
  intros Ha Hb Hv. unfold select_columns. cbn [columns rows].
  rewrite (mapM_Some_2 _ [a; b] [0; 1]) by (repeat constructor; done).
  cbn [mbind option_bind]. do 2 f_equal.
  induction Hv as [|r rws (c & x & ->) _ IH]; [done|].
  by rewrite fmap_cons, IH.
Qed.

Lemma by_consumption_perm rs :
  by_consumption rs ≡ₚ group_row UnitName UnitsConsumed rs <$> key_labels UnitName rs.
Proof. unfold by_consumption. by rewrite !merge_sort_Permutation. Qed.

Lemma by_consumption_value_rows rs : value_rows (by_consumption rs).
Proof.
  eapply value_rows_perm; [symmetry; apply by_consumption_perm|].
  apply group_rows_value_rows.
Qed.

(** X3. The top consuming departments of the summary report: the three
    units with the largest summed consumption (all of them when there are
    fewer than three), largest first, each with its sum; no unit that is
    left out has consumed more than a listed one. *)
Theorem top_consuming_departments_are_the_largest (rs : list UsageRecord) :
  ∃ (ud : DataFrame) (top rest : list (list Cell)),
    unit_data (table_frame rs) = Some ud
    ∧ nlargest 3 ud "UnitsConsumed"
        ≫= (λ d, select_columns d ["UnitName"; "UnitsConsumed"])
      = Some (mkDataFrame ["UnitName"; "UnitsConsumed"] top)
    ∧ length top = min 3 (distinct_count (UnitName <$> rs))
    ∧ top ++ rest ≡ₚ group_row UnitName UnitsConsumed rs <$> key_labels UnitName rs
    ∧ StronglySorted (row_ge 1) top
    ∧ ∀ r r', r ∈ top → r' ∈ rest → row_le 1 r' r.
Proof.
  pose proof (by_consumption_value_rows rs) as Hv.
  assert (StronglySorted (row_ge 1) (by_consumption rs)) as Hsorted.
  { apply (Sorted_StronglySorted_on _ (λ r, ∃ c x, r = [c; Num x]));
      [apply row_ge_trans_values|exact Hv|].
    apply (Sorted_merge_sort (row_ge 1)). }
  rewrite <- (take_drop 3 (by_consumption rs)) in Hsorted.
  eexists _, (take 3 (by_consumption rs)), (drop 3 (by_consumption rs)).
  split; [apply unit_data_table|].
  split; [|split; [|split; [|split]]].
  - rewrite nlargest_by_value; [|done|].
    2:{ eapply value_rows_perm; [symmetry; apply merge_sort_Permutation|].
        apply group_rows_value_rows. }
    cbn [mbind option_bind]. apply select_both_columns; [done..|].
    by apply Forall_take.
  - rewrite length_take, by_consumption_perm, length_fmap, key_labels_perm.
    by rewrite distinct_count_remove_dups.
  - rewrite take_drop. apply by_consumption_perm.
  - by apply StronglySorted_app_1_l in Hsorted.
  - intros r r' Hr Hr'.
    apply (StronglySorted_app_1_elem_of _ _ _ r r' Hsorted Hr Hr').
Qed.

Section arg_best.
Variable better : Qc → Qc → bool.
Variable ge : relation Qc.
Hypothesis ge_refl : ∀ x, ge x x.
Hypothesis ge_trans : ∀ x y z, ge x y → ge y z → ge x z.
Hypothesis better_true : ∀ x y, better x y = true → ¬ ge y x ∧ ge x y.
Hypothesis better_false : ∀ x y, better x y = false → ge y x.

Lemma first_best_keep (seen : list Qc) (j : nat) (x y : Qc) :
  first_best ge seen j y → ge y x → first_best ge (seen ++ [x]) j y.
Proof.
  intros (Hj & Hall & Hbefore) Hyx. split; [|split].
  - by apply lookup_app_l_Some.
  - apply Forall_app. split; [exact Hall|]. by constructor.
  - intros k x' Hk Hx'. apply (Hbefore k x' Hk).
    rewrite lookup_app_l in Hx'; [done|].
    apply lookup_lt_Some in Hj. lia.
Qed.

Lemma first_best_replace (seen : list Qc) (j : nat) (x y : Qc) :
  first_best ge seen j y → ¬ ge y x → ge x y →
  first_best ge (seen ++ [x]) (length seen) x.
Proof.
  intros (Hj & Hall & Hbefore) Hnot Hxy. split; [|split].
  - by rewrite lookup_app_r, Nat.sub_diag.
  - apply Forall_app. split; [|by constructor].
    eapply Forall_impl; [|exact Hall]. intros x' Hx'. by apply (ge_trans x y x').
  - intros k x' Hk Hx' Hge. rewrite lookup_app_l in Hx' by done.
    apply Hnot. apply (ge_trans y x' x); [|done].
    apply (proj1 (list.Forall_forall _ _) Hall). by eapply list_elem_of_lookup_2.
Qed.

Lemma arg_best_first (xs : list Qc) :
  ∀ (seen : list Qc) (best : option (nat * Qc)),
    match best with
    | Some (j, y) => first_best ge seen j y
    | None => seen = []
    end →
    ∃ r, arg_best better best (length seen) (Num <$> xs) = Some r
         ∧ match r with
           | Some j => ∃ y, first_best ge (seen ++ xs) j y
           | None => seen ++ xs = []
           end.
Proof.
  induction xs as [|x xs IH]; intros seen best Hbest.
  - exists (fst <$> best). split; [done|]. rewrite app_nil_r.
    destruct best as [[j y]|]; [by exists y|done].
  - assert (∀ best', match best' with
                     | Some (j, y) => first_best ge (seen ++ [x]) j y
                     | None => False
                     end →
              ∃ r, arg_best better best' (S (length seen)) (Num <$> xs) = Some r
                   ∧ match r with
                     | Some j => ∃ y, first_best ge (seen ++ x :: xs) j y
                     | None => seen ++ x :: xs = []
                     end) as Hnext.
    { intros best' Hb'. destruct (IH (seen ++ [x]) best') as (r & Hr & Hfirst).
      - by destruct best' as [[j y]|].
      - rewrite length_app, Nat.add_1_r in Hr. exists r. split; [exact Hr|].
        by rewrite <- app_assoc in Hfirst. }
    rewrite fmap_cons. simpl. destruct best as [[j y]|].
    + destruct (better x y) eqn:Hb.
      * apply Hnext. destruct (better_true x y Hb). by eapply first_best_replace.
      * apply Hnext. apply first_best_keep; [done|]. by apply better_false.
    + subst seen. apply Hnext. split; [done|]. split; [by repeat constructor|].
      intros k x' Hk. simpl in Hk. lia.
Qed.

End arg_best.

Lemma arg_best_from_start (better : Qc → Qc → bool) (ge : relation Qc) (xs : list Qc) :
  (∀ x, ge x x) → (∀ x y z, ge x y → ge y z → ge x z) →
  (∀ x y, better x y = true → ¬ ge y x ∧ ge x y) →
  (∀ x y, better x y = false → ge y x) →
  xs ≠ [] →
  ∃ j y, mjoin (arg_best better None 0 (Num <$> xs)) = Some j ∧ first_best ge xs j y.
Proof.
  intros Hrefl Htrans Htrue Hfalse Hne.
  destruct (arg_best_first better ge Hrefl Htrans Htrue Hfalse xs [] None eq_refl)
    as (r & Hr & Hfirst).
  simpl in Hr, Hfirst. rewrite Hr. destruct r as [j|]; [|done].
  destruct Hfirst as (y & Hy). by exists j, y.
Qed.

Lemma idxmax_first_largest (xs : list Qc) :
  xs ≠ [] →
  ∃ j y, idxmax (Num <$> xs) = Some j ∧ first_best (λ a b, (b ≤ a)%Qc) xs j y.
Proof.
  intros Hne. apply arg_best_from_start; [| | | |exact Hne].
  - intros x. apply Qcle_refl.
  - intros x y z Hxy Hyz. by apply (Qcle_trans z y x).
  - intros x y Hb. apply bool_decide_eq_true_1 in Hb.
    split; [by apply Qclt_not_le|by apply Qclt_le_weak].
  - intros x y Hb. apply bool_decide_eq_false_1 in Hb. by apply Qcnot_lt_le.
Qed.

Lemma idxmin_first_smallest (xs : list Qc) :
  xs ≠ [] →
  ∃ j y, idxmin (Num <$> xs) = Some j ∧ first_best Qcle xs j y.
Proof.
  intros Hne. apply arg_best_from_start; [| | | |exact Hne].
  - intros x. apply Qcle_refl.
  - intros x y z. apply Qcle_trans.
  - intros x y Hb. apply bool_decide_eq_true_1 in Hb.
    split; [by apply Qclt_not_le|by apply Qclt_le_weak].
  - intros x y Hb. apply bool_decide_eq_false_1 in Hb. by apply Qcnot_lt_le.
Qed.

Lemma monthly_data_table rs :
  monthly_data (table_frame rs)
  = Some (mkDataFrame ["Month"; "UnitsConsumed"]
            (monthly_row UnitsConsumed rs <$> calendar_sorted (month_labels rs))).
Proof. apply (monthly_view_table UnitsConsumed), getitem_UnitsConsumed. Qed.

Lemma monthly_cost_table rs :
  monthly_cost (table_frame rs)
  = Some (mkDataFrame ["Month"; "Cost"]
            (monthly_row Cost rs <$> calendar_sorted (month_labels rs))).
Proof. apply (monthly_view_table Cost), getitem_Cost. Qed.

Lemma elem_of_calendar_sorted rs (m : string) :
  m ∈ calendar_sorted (month_labels rs) ↔ m ∈ Month <$> rs.
Proof. by rewrite calendar_sorted_perm, month_labels_perm, elem_of_remove_dups. Qed.

(** The month label of the row that [idxmax] or [idxmin] picks in a
    monthly view. *)
Lemma best_month_label (ge : relation Qc) (idx : list Cell → option nat)
    rs (ms : list string) :
  (∀ xs, xs ≠ [] → ∃ j y, idx (Num <$> xs) = Some j ∧ first_best ge xs j y) →
  ms ≠ [] →
  ∃ (j : nat) (m : string),
    (s ← getitem (mkDataFrame ["Month"; "UnitsConsumed"]
                    (monthly_row UnitsConsumed rs <$> ms)) "UnitsConsumed";
     i ← idx s;
     loc (mkDataFrame ["Month"; "UnitsConsumed"]
            (monthly_row UnitsConsumed rs <$> ms)) i "Month")
    = Some (month_category m)
    ∧ ms !! j = Some m
    ∧ (∀ m', m' ∈ ms → ge (month_total rs m) (month_total rs m'))
    ∧ (∀ k m', k < j → ms !! k = Some m' → ¬ ge (month_total rs m') (month_total rs m)).
Proof.
  intros Hidx Hne.
  destruct (Hidx (month_total rs <$> ms)) as (j & y & Hj & Hy & Hall & Hbefore).
  { by destruct ms. }
  apply list_lookup_fmap_Some in Hy as (m & -> & Hm).
  exists j, m. split; [|split; [exact Hm|split]].
  - unfold getitem, loc. cbn [columns rows]. simpl index_of.
    cbn [mbind option_bind]. rewrite monthly_rows_values.
    change (λ k, Num (sum_over UnitsConsumed (filter (λ r, Month r = k) rs)))
      with (Num ∘ month_total rs).
    rewrite (list_fmap_compose (month_total rs) Num), Hj.
    cbn [mbind option_bind]. by rewrite list_lookup_fmap, Hm.
  - intros m' Hm'. apply (proj1 (list.Forall_forall _ _) Hall).
    apply list_elem_of_fmap. by exists m'.
  - intros k m' Hk Hm'. apply (Hbefore k _ Hk). by rewrite list_lookup_fmap, Hm'.
Qed.

(** X4. The highest (lowest) consumption month of the summary report is
    a month of the table whose summed consumption no month exceeds (no
    month is below); among several such months it is the first in the
    order of the rows of [monthly_data]. What is printed is the category
    of the label, which is missing when the label is not a calendar
    month. *)
Theorem highest_and_lowest_month (rs : list UsageRecord) :
  rs ≠ [] →
  ∃ (md : DataFrame) (ms : list string) (i j : nat) (hi lo : string),
    monthly_data (table_frame rs) = Some md
    ∧ rows md = monthly_row UnitsConsumed rs <$> ms
    ∧ highest_month md = Some (month_category hi)
    ∧ lowest_month md = Some (month_category lo)
    ∧ ms !! i = Some hi ∧ ms !! j = Some lo
    ∧ hi ∈ Month <$> rs ∧ lo ∈ Month <$> rs
    ∧ (∀ m, m ∈ Month <$> rs →
         (month_total rs lo ≤ month_total rs m)%Qc
         ∧ (month_total rs m ≤ month_total rs hi)%Qc)
    ∧ (∀ k m, k < i → ms !! k = Some m → (month_total rs m < month_total rs hi)%Qc)
    ∧ (∀ k m, k < j → ms !! k = Some m → (month_total rs lo < month_total rs m)%Qc).
Proof.
  intros Hrs. set (ms := calendar_sorted (month_labels rs)).
  assert (ms ≠ []) as Hne by (by apply month_labels_nonempty).
  destruct (best_month_label (λ a b, (b ≤ a)%Qc) idxmax rs ms idxmax_first_largest Hne)
    as (i & hi & Hhi & Hi & Hmax & Hfirst).
  destruct (best_month_label Qcle idxmin rs ms idxmin_first_smallest Hne)
    as (j & lo & Hlo & Hj & Hmin & Hfirst').
  eexists _, ms, i, j, hi, lo. split; [apply monthly_data_table|].
  split; [done|]. split; [exact Hhi|]. split; [exact Hlo|].
  split; [exact Hi|]. split; [exact Hj|].
  split; [|split; [|split; [|split]]].
  - apply elem_of_calendar_sorted. by eapply list_elem_of_lookup_2.
  - apply elem_of_calendar_sorted. by eapply list_elem_of_lookup_2.
  - intros m Hm. apply elem_of_calendar_sorted in Hm.
    split; [by apply Hmin|by apply Hmax].
  - intros k m Hk Hm. apply Qcnot_le_lt. by apply (Hfirst k m).
  - intros k m Hk Hm. apply Qcnot_le_lt. by apply (Hfirst' k m).
Qed.

Lemma highest_and_lowest_month_witness :
  ∃ (md : DataFrame) (hi lo : string),
    monthly_data (table_frame example_records) = Some md
    ∧ highest_month md = Some (month_category hi)
    ∧ lowest_month md = Some (month_category lo)
    ∧ hi ∈ Month <$> example_records ∧ lo ∈ Month <$> example_records.
Proof.
  destruct (highest_and_lowest_month example_records)
    as (md & ms & i & j & hi & lo & Hmd & _ & Hhi & Hlo & _ & _ & Hin & Hin' & _);
    [discriminate|].
  by exists md, hi, lo.
Defined.

(** ** Month labels that are not calendar months *)

Lemma string_compare_trans (s1 : string) :
  ∀ s2 s3 : string,
    (s1 ?= s2)%string ≠ Gt → (s2 ?= s3)%string ≠ Gt → (s1 ?= s3)%string ≠ Gt.
Proof.
  induction s1 as [|c1 s1 IH]; intros [|c2 s2] [|c3 s3]; simpl; try done.
  unfold Ascii.compare.
  destruct (N.compare_spec (N_of_ascii c1) (N_of_ascii c2)) as [E12|L12|G12];
    destruct (N.compare_spec (N_of_ascii c2) (N_of_ascii c3)) as [E23|L23|G23];
    destruct (N.compare_spec (N_of_ascii c1) (N_of_ascii c3)) as [E13|L13|G13];
    try done; try lia.
  apply IH.
Qed.

Global Instance string_le_trans : Transitive string_le.
Proof.
  intros s1 s2 s3. unfold string_le, String.leb.
  pose proof (string_compare_trans s1 s2 s3) as Htrans.
  destruct (s1 ?= s2)%string, (s2 ?= s3)%string, (s1 ?= s3)%string; try done;
    intros _ _; exfalso; by apply Htrans.
Qed.

Lemma key_labels_StronglySorted (g : UsageRecord → string) rs :
  StronglySorted string_le (key_labels g rs).
Proof. apply (StronglySorted_merge_sort string_le). Qed.

Lemma Forall_filter_self {A} (P : A → Prop) `{!∀ x, Decision (P x)} (l : list A) :
  Forall P (filter P l).
Proof.
  induction l as [|x l IH]; [constructor|]. rewrite filter_cons.
  destruct (decide (P x)); [by constructor|exact IH].
Qed.

Lemma Forall_filter_keeps {A} (P Q : A → Prop) `{!∀ x, Decision (P x)} (l : list A) :
  Forall Q l → Forall Q (filter P l).
Proof.
  induction 1 as [|x l Hx _ IH]; [constructor|]. rewrite filter_cons.
  destruct (decide (P x)); [by constructor|exact IH].
Qed.

Lemma StronglySorted_filter {A} (R : relation A) (P : A → Prop)
    `{!∀ x, Decision (P x)} (l : list A) :
  StronglySorted R l → StronglySorted R (filter P l).
Proof.
  induction 1 as [|x l _ IH Hx]; [constructor|].
  rewrite filter_cons. destruct (decide (P x)); [|exact IH].
  constructor; [exact IH|]. by apply Forall_filter_keeps.
Qed.

(** X5. The rows of a monthly view: first the calendar months of the
    table, in calendar order and with their category; then one row for
    each month label that is not a calendar month, in ascending order of
    the labels, with its sum but without a label. *)
Theorem unrecognised_months_come_last (rs : list UsageRecord) :
  ∃ (md mc : DataFrame) (known unknown : list string),
    monthly_data (table_frame rs) = Some md
    ∧ monthly_cost (table_frame rs) = Some mc
    ∧ rows md
      = ((λ m, [month_category m; Num (sum_over UnitsConsumed (in_month m rs))]) <$> known)
        ++ ((λ m, [NaN; Num (sum_over UnitsConsumed (in_month m rs))]) <$> unknown)
    ∧ rows mc
      = ((λ m, [month_category m; Num (sum_over Cost (in_month m rs))]) <$> known)
        ++ ((λ m, [NaN; Num (sum_over Cost (in_month m rs))]) <$> unknown)
    ∧ known ++ unknown ≡ₚ remove_dups (Month <$> rs)
    ∧ Forall recognised known
    ∧ Forall (λ m, ¬ recognised m) unknown
    ∧ StronglySorted calendar_lt known
    ∧ StronglySorted string_le unknown.
Proof.
  set (known := merge_sort month_le (filter recognised (month_labels rs))).
  set (unknown := filter (λ m, ¬ recognised m) (month_labels rs)).
  assert (Forall recognised known) as Hknown.
  { unfold known. rewrite merge_sort_Permutation. apply Forall_filter_self. }
  assert (Forall (λ m, ¬ recognised m) unknown) as Hunknown.
  { apply Forall_filter_self. }
  assert (∀ f : UsageRecord → Qc,
            monthly_row f rs <$> calendar_sorted (month_labels rs)
            = ((λ m, [month_category m; Num (sum_over f (in_month m rs))]) <$> known)
              ++ ((λ m, [NaN; Num (sum_over f (in_month m rs))]) <$> unknown)) as Hrows.
  { intros f. unfold calendar_sorted. fold known unknown. rewrite fmap_app.
    f_equal. apply Forall_fmap_ext_1.
    eapply Forall_impl; [|exact Hunknown]. intros m Hm. unfold monthly_row.
    f_equal. unfold month_category. unfold recognised in Hm.
    destruct (month_index m); [|done]. destruct Hm. by eexists. }
  eexists _, _, known, unknown.
  split; [apply monthly_data_table|]. split; [apply monthly_cost_table|].
  cbn [rows]. split; [apply Hrows|]. split; [apply Hrows|].
  split; [|split; [exact Hknown|split; [exact Hunknown|split]]].
  - rewrite <- month_labels_perm, <- (calendar_sorted_perm (month_labels rs)). done.
  - apply Sorted_month_le_strict; [exact Hknown| |].
    + unfold known. rewrite merge_sort_Permutation.
      apply list.NoDup_filter, key_labels_NoDup.
    + apply (Sorted_merge_sort month_le).
  - apply StronglySorted_filter, key_labels_StronglySorted.
Qed.

(** ** The summary tables of the detailed analysis *)
















(** ** The exported file *)

(** X8. The file that the dashboard exports can be uploaded again,
    whatever the labels and numbers of the table are (the labels without
    carriage return, which older versions of the writer do not quote): it
    is read without error, has the four required columns in the same
    order and as many rows as the table, so that the validation accepts
    it. The values need not be the same; see claim C2. *)
Theorem exported_file_can_be_uploaded_again (rs : list UsageRecord) :
  Forall (λ r, no_CR (Month r) ∧ no_CR (UnitName r)) rs →
  ∃ d : DataFrame,
    read_csv (to_csv (table_frame rs)) = inr d
    ∧ columns d = required_columns
    ∧ length (rows d) = length rs
    ∧ Forall (λ row, length row = 4) (rows d)
    ∧ forallb (has_column d) required_columns = true.
Proof.
  intros _. unfold read_csv. rewrite tokenize_to_csv.
  cbn [length fmap list_fmap required_columns].
  set (body := row_texts <$> (record_row <$> rs)).
  assert (list_find (λ r : list (list ascii), 4 < length r) body = None) as ->.
  { apply list_find_None. unfold body.
    apply Forall_fmap, Forall_fmap, Forall_true. intros r. simpl. lia. }
  eexists. split; [reflexivity|]. cbn [columns rows].
  split; [done|]. split; [|split; [|done]].
  - unfold body. by rewrite !length_fmap.
  - unfold body. rewrite <- !list_fmap_compose.
    apply Forall_fmap, Forall_true. intros r. unfold compose, pad_record, row_texts.
    by rewrite length_zip_with, !length_fmap, length_seq, length_app, !length_fmap.
Qed.

Lemma exported_file_can_be_uploaded_again_witness :
  ∃ d : DataFrame,
    read_csv (to_csv (table_frame unit_called_NA)) = inr d
    ∧ columns d = required_columns
    ∧ length (rows d) = 1.
Proof.
  destruct (exported_file_can_be_uploaded_again unit_called_NA)
    as (d & Hread & Hcols & Hlen & _).
  - apply (bool_decide_unpack _). by vm_compute.
  - exists d. split; [exact Hread|]. split; [exact Hcols|exact Hlen].
Defined.

(** ** What a run leaves alone *)

Create HintDb untouched.

Section untouched.
Context {X : Type} (part : World → X).

Lemma untouched_ret {A} (a : A) : untouched part (mret a).
Proof. by intros w. Qed.

Lemma untouched_bind {A B} (m : M A) (k : A → M B) :
  untouched part m → (∀ a, untouched part (k a)) → untouched part (m ≫= k).
Proof.
  intros Hm Hk w. specialize (Hm w). unfold mbind, M_bind.
  destruct (m w) as [[a| |] w1]; simpl in *; [|done..].
  by rewrite Hk.
Qed.

Lemma untouched_py {A} (o : option A) : untouched part (py o).
Proof. intros w. by destruct o. Qed.

Lemma untouched_st_stop {A} : untouched part (@st_stop A).
Proof. by intros w. Qed.

Lemma untouched_frame (l : nat) : untouched part (frame l).
Proof. intros w. unfold frame. by destruct (heap w !! l). Qed.

Lemma untouched_on_frame {A} (l : nat) (f : DataFrame → option A) :
  untouched part (on_frame l f).
Proof. apply untouched_bind; [apply untouched_frame|]. intros d. apply untouched_py. Qed.

Lemma untouched_for_each {A B} (l : list A) (body : B → A → M B) (acc : B) :
  (∀ acc x, untouched part (body acc x)) → untouched part (for_each l body acc).
Proof.
  intros Hbody. revert acc. induction l as [|x l IH]; intros acc; simpl.
  - apply untouched_ret.
  - apply untouched_bind; [apply Hbody|]. intros acc'. apply IH.
Qed.

(** The part does not depend on the heap or on the page. *)
Hypothesis part_of_session_or_generator :
  ∀ (w : World) (h : list DataFrame) (s : list Widget),
    part (mkWorld h (manual_data w) (random_state w) s) = part w.

Lemma untouched_show (x : Widget) : untouched part (show x).
Proof. intros w. apply part_of_session_or_generator. Qed.

Lemma untouched_new_frame (d : DataFrame) : untouched part (new_frame d).
Proof. intros w. apply part_of_session_or_generator. Qed.

Lemma untouched_store_frame (l : nat) (d : DataFrame) : untouched part (store_frame l d).
Proof. intros w. apply part_of_session_or_generator. Qed.

Lemma untouched_derive (l : nat) (f : DataFrame → option DataFrame) :
  untouched part (derive l f).
Proof.
  apply untouched_bind; [apply untouched_on_frame|]. intros d. apply untouched_new_frame.
Qed.

Lemma untouched_mutate (l : nat) (f : DataFrame → option DataFrame) :
  untouched part (mutate l f).
Proof.
  apply untouched_bind; [apply untouched_on_frame|]. intros d. apply untouched_store_frame.
Qed.

Lemma untouched_chart (kind : string) (l : nat) (x y title : string) :
  untouched part (chart kind l x y title).
Proof. apply untouched_bind; [apply untouched_frame|]. intros d. apply untouched_show. Qed.

(** One statement of a sequence after the other, each by its rule. *)
Ltac untouched_step :=
  lazymatch goal with
  | |- untouched _ (mret _) => apply untouched_ret
  | |- untouched _ (_ ≫= _) => apply untouched_bind; [|intros ?]
  | |- untouched _ (show _) => apply untouched_show
  | |- untouched _ (py _) => apply untouched_py
  | |- untouched _ st_stop => apply untouched_st_stop
  | |- untouched _ (frame _) => apply untouched_frame
  | |- untouched _ (on_frame _ _) => apply untouched_on_frame
  | |- untouched _ (derive _ _) => apply untouched_derive
  | |- untouched _ (mutate _ _) => apply untouched_mutate
  | |- untouched _ (chart _ _ _ _ _) => apply untouched_chart
  | |- untouched _ (new_frame _) => apply untouched_new_frame
  | |- untouched _ (store_frame _ _) => apply untouched_store_frame
  | |- untouched _ _ => solve [eauto with untouched]
  end.

Ltac untouched_all := repeat untouched_step.

Lemma untouched_monthly_steps (df : nat) (val : string) :
  untouched part (monthly_steps df val).
Proof. unfold monthly_steps. untouched_all. Qed.

Lemma untouched_validate (df : nat) : untouched part (validate df).
Proof.
  unfold validate. untouched_step; [untouched_step|].
  destruct (forallb _ _); untouched_all.
Qed.

Lemma untouched_data_preview (df : nat) : untouched part (data_preview df).
Proof. unfold data_preview. untouched_all. Qed.

Lemma untouched_key_performance_indicators (df : nat) :
  untouched part (key_performance_indicators df).
Proof. unfold key_performance_indicators. untouched_all. Qed.

Local Hint Resolve untouched_monthly_steps untouched_validate untouched_data_preview
  untouched_key_performance_indicators : untouched.

Lemma untouched_visualizations (df : nat) : untouched part (visualizations df).
Proof. unfold visualizations. untouched_all. Qed.

Lemma untouched_detailed_analysis (df : nat) (inp : Inputs) :
  untouched part (detailed_analysis df inp).
Proof. unfold detailed_analysis. destruct (analysis_option inp); untouched_all. Qed.

Lemma untouched_export_csv (df : nat) (inp : Inputs) : untouched part (export_csv df inp).
Proof. unfold export_csv. untouched_all. Qed.

Lemma untouched_summary_report (inp : Inputs) (k : KPIs) (unit_data monthly_data : nat) :
  untouched part (summary_report inp k unit_data monthly_data).
Proof. unfold summary_report. destruct (generate_summary_report inp); untouched_all. Qed.

Local Hint Resolve untouched_visualizations untouched_detailed_analysis
  untouched_export_csv untouched_summary_report : untouched.

Lemma untouched_analysis (df : nat) (inp : Inputs) : untouched part (analysis df inp).
Proof. unfold analysis. untouched_all. Qed.

Local Hint Resolve untouched_analysis : untouched.

Lemma untouched_dashboard (df : nat) (inp : Inputs) : untouched part (dashboard df inp).
Proof. unfold dashboard. untouched_all. Qed.

End untouched.

Lemma untouched_then {X} (part : World → X) {A B} (m : M A) (k : A → M B) (w : World) :
  (∀ a, untouched part (k a)) → part ((m ≫= k) w).2 = part (m w).2.
Proof.
  intros Hk. unfold mbind, M_bind. destruct (m w) as [[a| |] w1]; simpl; [|done..].
  apply Hk.
Qed.

Lemma session_untouched_by_create_sample_data : untouched manual_data create_sample_data.
Proof.
  unfold create_sample_data. apply untouched_bind; [|by intros data w].
  apply untouched_for_each. intros data month. apply untouched_for_each.
  intros data' unit_. unfold sample_record, np_random_normal, np_random_uniform.
  repeat (apply untouched_bind; [|intros ?]); by intros w.
Qed.

Lemma session_untouched_by_manual_or_sample : untouched manual_data manual_or_sample.
Proof.
  intros w. unfold manual_or_sample. destruct (manual_data w) as [[|r data]|] eqn:E.
  - by rewrite session_untouched_by_create_sample_data.
  - done.
  - by rewrite session_untouched_by_create_sample_data.
Qed.

(** X9. The entries of the session change in one way only: a run in which
    the manual form is submitted with a unit name appends that entry at
    the end. Every other run, with whatever input method and however it
    ends (normally, stopped by the validation, or by an exception), leaves
    the entries exactly as they were. *)
Theorem session_grows_only_by_submitted_entries (inp : Inputs) (w : World) :
  manual_data (main inp w).2
  = if decide (entry_added inp)
    then Some (default [] (manual_data w) ++ [form_entry inp])
    else manual_data w.
Proof.
  unfold main.
  rewrite (bind_Ok _ _ _ _ _ (show_drawn _ _)). cbv beta.
  rewrite (bind_Ok _ _ _ _ _ (show_drawn _ _)). cbv beta.
  rewrite (bind_Ok _ _ _ _ _ (show_drawn _ _)). cbv beta.
  rewrite !drawn_drawn. simpl app.
  set (w0 := drawn w _).
  rewrite (untouched_then manual_data)
    by (intros df; by apply untouched_dashboard).
  change (manual_data w) with (manual_data w0). clearbody w0.
  assert (untouched manual_data create_sample_data) as Hsample
    by apply session_untouched_by_create_sample_data.
  unfold load_data. destruct (input_method inp) eqn:Hmethod.
  - rewrite decide_False by (intros [? _]; congruence).
    destruct (uploaded_file inp) as [file|]; [destruct (read_csv file)|].
    + rewrite (bind_Ok _ _ _ _ _ (show_drawn _ _)). by rewrite Hsample.
    + done.
    + rewrite (bind_Ok _ _ _ _ _ (show_drawn _ _)). by rewrite Hsample.
  - rewrite (bind_Ok _ _ _ _ _ (show_drawn _ _)). cbv beta.
    rewrite (untouched_then manual_data)
      by (intros _; apply session_untouched_by_manual_or_sample).
    unfold manual_entry, form_entry.
    destruct (form_submitted inp) eqn:Hsub; simpl.
    + destruct (String.eqb_spec (form_unit_name inp) EmptyString) as [E|N]; simpl.
      * by rewrite decide_False by (by intros (_ & _ & ?)).
      * by rewrite decide_True.
    + rewrite decide_False; [done|]. intros (_ & ? & _). congruence.
  - rewrite decide_False by (intros [? _]; congruence).
    rewrite (untouched_then manual_data) by (by intros df w').
    by rewrite Hsample.
Qed.

(** ** The sample table as a function of the random draws *)

Lemma drew_0 (w : World) : drew 0 w = w.
Proof.
  destruct w as [h m [e c] s]. unfold drew, advance. simpl. by rewrite Nat.add_0_r.
Qed.

Lemma drew_drew (n k : nat) (w : World) : drew k (drew n w) = drew (n + k) w.
Proof. unfold drew, advance. simpl. by rewrite Nat.add_assoc. Qed.

Lemma sample_record_run (month unit_ : string) (w : World) :
  sample_record month unit_ w
  = (Ok (record_from month unit_
           (entropy (random_state w) (cursor (random_state w)))
           (entropy (random_state w) (cursor (random_state w) + 1))),
     drew 2 w).
Proof.
  unfold drew, advance. rewrite Nat.add_1_r, <- !Nat.add_succ_comm, Nat.add_0_r.
  reflexivity.
Qed.

Lemma inner_loop_run (month : string) (data0 : list UsageRecord) (w0 : World) :
  returns (for_each sample_units (λ data unit_,
             r ← sample_record month unit_; mret (data ++ [r])) data0) w0
    (λ data w,
       data = data0 ++ records_from (random_state w0) (cursor (random_state w0))
                         ((λ u, (month, u)) <$> sample_units)
       ∧ w = drew (2 * length sample_units) w0).
Proof.
  apply (for_each_returns (λ done data w,
       data = data0 ++ records_from (random_state w0) (cursor (random_state w0))
                         ((λ u, (month, u)) <$> done)
       ∧ w = drew (2 * length done) w0)).
  - split; [by rewrite app_nil_r|by rewrite drew_0].
  - intros done u data w [-> ->]. apply returns_bind.
    eexists _, _. split; [apply sample_record_run|]. apply returns_ret.
    split.
    + unfold records_from. rewrite fmap_app, imap_app, app_assoc.
      cbn [imap fmap list_fmap app fst snd compose drew advance random_state
           entropy cursor].
      rewrite length_fmap, !Nat.add_0_r. do 3 f_equal.
    + rewrite drew_drew. f_equal. rewrite length_app. simpl. lia.
Qed.

Lemma sample_rows_run (w0 : World) :
  sample_rows w0
  = (Ok (records_from (random_state w0) (cursor (random_state w0))
           (list_prod sample_months sample_units)),
     drew 120 w0).
Proof.
  pose (I := λ (done : list string) (data : list UsageRecord) (w : World),
          data = records_from (random_state w0) (cursor (random_state w0))
                   (done ≫= λ m, (λ u, (m, u)) <$> sample_units)
          ∧ w = drew (10 * length done) w0).
  destruct (for_each_returns I
              (λ data month, for_each sample_units (λ data unit_,
                 r ← sample_record month unit_; mret (data ++ [r])) data)
              sample_months [] w0) as (data & w & Hrun & Hdata & Hw).
  - split; [done|by rewrite drew_0].
  - intros done m data w [-> ->].
    eapply returns_consequence; [apply inner_loop_run|].
    intros data' w' [-> ->]. split.
    + unfold records_from. rewrite bind_app, imap_app.
      refine (f_equal2 app eq_refl _).
      replace ([m] ≫= λ m0, (λ u0, (m0, u0)) <$> sample_units)
        with ((λ u0, (m, u0)) <$> sample_units) by (symmetry; apply app_nil_r).
      cbn [drew advance random_state entropy cursor].
      apply imap_ext. intros k [m' u] _. cbn [fst snd compose].
      assert (length (done ≫= λ m0, (λ u0, (m0, u0)) <$> sample_units) = 5 * length done)
        as ->.
      { clear. induction done as [|m0 done IH]; [done|].
        rewrite bind_cons, length_app, IH, length_fmap. simpl. lia. }
      f_equal; f_equal; lia.
    + rewrite drew_drew. f_equal. rewrite length_app. simpl. lia.
  - unfold sample_rows. rewrite Hrun, Hdata, Hw. reflexivity.
Qed.

Lemma list_prod_lookup {A B} (l1 : list A) (l2 : list B) (i j : nat) (x : A) (y : B) :
  l1 !! i = Some x → l2 !! j = Some y →
  list_prod l1 l2 !! (i * length l2 + j) = Some (x, y).
Proof.
  revert i. induction l1 as [|x0 l1 IH]; intros i Hx Hy; [done|].
  cbn [list_prod]. destruct i as [|i]; simpl in Hx.
  - injection Hx as ->. simpl. apply lookup_app_l_Some.
    change (map (λ y0, (x, y0)) l2) with ((λ y0, (x, y0)) <$> l2).
    by rewrite list_lookup_fmap, Hy.
  - rewrite lookup_app_r; rewrite length_map; [|simpl; lia].
    replace (S i * length l2 + j - length l2) with (i * length l2 + j) by (simpl; lia).
    by apply IH.
Qed.

Lemma records_from_length (g : RandomState) (c : nat) (labels : list (string * string)) :
  length (records_from g c labels) = length labels.
Proof. apply length_imap. Qed.

Lemma create_sample_data_run (w : World) :
  create_sample_data w
  = (Ok (length (heap w)),
     mkWorld
       (heap w ++ [table_frame (records_from (random_state w) (cursor (random_state w))
                                  (list_prod sample_months sample_units))])
       (manual_data w) (advance 120 (random_state w)) (screen w)).
Proof.
  unfold create_sample_data. rewrite (bind_Ok _ _ _ _ _ (sample_rows_run w)).
  unfold new_frame, pd_DataFrame.
  destruct (records_from _ _ _) as [|r rs] eqn:E; [|done].
  apply (f_equal length) in E. by rewrite records_from_length in E.
Qed.

(** X10. The sample table is a function of the next 120 raw variates of
    the random generator and of nothing else: the record of the [i]-th
    month and the [j]-th unit is made of the two variates at the positions
    [2 (5 i + j)] and [2 (5 i + j) + 1] after the cursor, the first for
    the consumption (normal), the second for the rate (uniform), so that
    no two records share a draw. The call advances the generator by exactly
    120 draws, allocates the one table, draws nothing on the page and
    leaves the session alone. *)
Theorem sample_table_is_made_of_120_draws (w : World) :
  ∃ rs : list UsageRecord,
    create_sample_data w
    = (Ok (length (heap w)),
       mkWorld (heap w ++ [table_frame rs]) (manual_data w)
         (advance 120 (random_state w)) (screen w))
    ∧ length rs = 60
    ∧ ∀ (i j : nat) (month unit_ : string),
        sample_months !! i = Some month → sample_units !! j = Some unit_ →
        rs !! (5 * i + j)
        = Some (record_from month unit_
                  (entropy (random_state w) (cursor (random_state w) + 2 * (5 * i + j)))
                  (entropy (random_state w) (cursor (random_state w) + 2 * (5 * i + j) + 1))).
Proof.
  eexists. split; [apply create_sample_data_run|]. split; [apply records_from_length|].
  intros i j month unit_ Hi Hj. unfold records_from.
  rewrite list_lookup_imap.
  replace (5 * i + j) with (i * length sample_units + j) by (simpl; lia).
  by rewrite (list_prod_lookup _ _ _ _ _ _ Hi Hj).
Qed.





(** ** The page of a run *)



























(** ** Whole runs *)














(** ** The setup check *)

Lemma setup_run_bind {A B} (m : test_setup.Script A) (k : A → test_setup.Script B)
    (out out' lines : list string) (a : A) (r : test_setup.Outcome B) :
  m = (out, test_setup.returned a) → lines = out ++ out' → k a = (out', r) →
  m ≫= k = (lines, r).
Proof. intros -> -> Hk. unfold mbind, test_setup.Script_bind. by rewrite Hk. Qed.

Lemma setup_run_raised {A B} (m : test_setup.Script A) (k : A → test_setup.Script B)
    (out : list string) :
  m = (out, test_setup.raised) → m ≫= k = (out, test_setup.raised).
Proof. by intros ->. Qed.

(** A line is printed, or a test has run, and the script goes on. *)
Ltac printed := eapply setup_run_bind; [reflexivity|reflexivity|cbv beta zeta].
Ltac tested H := eapply setup_run_bind; [apply H|reflexivity|cbv beta zeta].

Lemma test_python_version_run (sys : test_setup.System) :
  test_setup.test_python_version sys
  = ([test_setup.python_line sys],
     test_setup.returned (bool_decide (test_setup.python_ok sys))).
Proof.
  unfold test_setup.test_python_version, test_setup.python_line, test_setup.python_ok.
  destruct (test_setup.version_info sys) as [[major minor] micro]. cbn [fst snd].
  destruct (Nat.eqb_spec major 3) as [Hmajor|Hmajor];
    destruct (Nat.leb_spec0 7 minor) as [Hminor|Hminor]; cbn [andb].
  - by rewrite !decide_True, bool_decide_eq_true_2.
  - by rewrite !decide_False, bool_decide_eq_false_2 by (by intros [_ ?]).
  - by rewrite !decide_False, bool_decide_eq_false_2 by (by intros [? _]).
  - by rewrite !decide_False, bool_decide_eq_false_2 by (by intros [? _]).
Qed.

Lemma test_package_import_run (sys : test_setup.System) (p : string * string) :
  test_setup.import_ sys p.2 ≠ test_setup.import_raises →
  test_setup.test_package_import sys p.1 (Some p.2)
  = ([test_setup.package_line sys p],
     test_setup.returned (bool_decide (test_setup.package_ok sys p))).
Proof.
  intros Hcaught.
  destruct (decide (test_setup.package_ok sys p)) as [Hok|Hok].
  - rewrite (bool_decide_eq_true_2 _ Hok). unfold test_setup.package_ok in Hok.
    unfold test_setup.test_package_import, test_setup.package_line. cbn [default].
    unfold id.
    by rewrite Hok.
  - rewrite (bool_decide_eq_false_2 _ Hok). unfold test_setup.package_ok in Hok.
    unfold test_setup.test_package_import, test_setup.package_line. cbn [default].
    unfold id.
    by destruct (test_setup.import_ sys p.2).
Qed.

Lemma test_streamlit_command_run (sys : test_setup.System) :
  test_setup.streamlit_version sys ≠ test_setup.run_raises →
  test_setup.test_streamlit_command sys
  = ([test_setup.streamlit_line sys],
     test_setup.returned (bool_decide (test_setup.streamlit_ok sys))).
Proof.
  intros Hcaught.
  destruct (decide (test_setup.streamlit_ok sys)) as [Hok|Hok];
    [rewrite (bool_decide_eq_true_2 _ Hok)|rewrite (bool_decide_eq_false_2 _ Hok)];
    unfold test_setup.streamlit_ok in Hok;
    unfold test_setup.test_streamlit_command, test_setup.streamlit_line;
    destruct (test_setup.streamlit_version sys) as [returncode stdout| | |];
    try done.
  - subst returncode. by rewrite decide_True.
  - destruct (Z.eqb_spec returncode 0) as [->|Hcode]; [done|].
    by rewrite decide_False.
Qed.

(** The loop over the packages goes through all of them, whatever it
    finds, as long as no exception escapes. *)
Lemma package_loop_run (sys : test_setup.System) (l : list (string * string))
    (acc : bool) :
  Forall (λ p, test_setup.import_ sys p.2 ≠ test_setup.import_raises) l →
  test_setup.for_each l (λ all_tests_passed p,
    ok ← test_setup.test_package_import sys p.1 (Some p.2);
    mret (if negb ok then false else all_tests_passed)) acc
  = (test_setup.package_line sys <$> l,
     test_setup.returned (acc && bool_decide (Forall (test_setup.package_ok sys) l))).
Proof.
  intros Hl. revert acc. induction Hl as [|p l Hp _ IH]; intros acc.
  - simpl. by rewrite andb_true_r.
  - cbn [test_setup.for_each]. rewrite fmap_cons.
    eapply (setup_run_bind _ _ [test_setup.package_line sys p]); [|reflexivity|].
    + eapply setup_run_bind;
        [apply (test_package_import_run sys p Hp)| |reflexivity]; reflexivity.
    + rewrite IH. do 2 f_equal.
      destruct (decide (test_setup.package_ok sys p)) as [Hok|Hok].
      * rewrite (bool_decide_eq_true_2 _ Hok). simpl. f_equal.
        apply bool_decide_ext. split; [by constructor|by intros [_ ?]%Forall_cons_1].
      * rewrite (bool_decide_eq_false_2 _ Hok). simpl.
        rewrite bool_decide_eq_false_2; [by rewrite andb_false_r|].
        by intros [? _]%Forall_cons_1.
Qed.

(** X17. The setup check, when no exception escapes its three tests,
    always runs all of them, whatever the earlier ones found: it prints
    one line for the Python version, one for each of the five packages in
    the order of the list, and one for the streamlit command (a command
    that is missing or does not answer in time is reported as not found).
    It then concludes that all tests passed exactly when the version is
    3.7 or later of Python 3, every package could be imported, and the
    command ended with return code 0. *)
Theorem setup_check_reports_every_test (sys : test_setup.System) :
  test_setup.nothing_uncaught sys →
  test_setup.main sys
  = (["🧪 Testing Electricity Dashboard Setup"; test_setup.rule;
      test_setup.python_line sys; EmptyString; "Testing package imports:"]
     ++ (test_setup.package_line sys <$> test_setup.packages)
     ++ [EmptyString; "Testing Streamlit command:"; test_setup.streamlit_line sys;
         EmptyString; test_setup.rule]
     ++ test_setup.verdict (bool_decide (test_setup.all_ok sys)),
     test_setup.returned ()).
Proof.
  intros [Himports Hrun]. unfold test_setup.main.
  printed. printed. tested (test_python_version_run sys).
  printed. printed. eapply setup_run_bind;
    [by apply package_loop_run|reflexivity|cbv beta zeta].
  printed. printed. tested (test_streamlit_command_run sys Hrun).
  printed. printed.
  set (passed := if negb (bool_decide (test_setup.streamlit_ok sys)) then false else _).
  assert (passed = bool_decide (test_setup.all_ok sys)) as ->.
  { unfold passed, test_setup.all_ok.
    destruct (decide (test_setup.python_ok sys)) as [Hp|Hp];
      destruct (decide (Forall (test_setup.package_ok sys) test_setup.packages))
        as [Hi|Hi];
      destruct (decide (test_setup.streamlit_ok sys)) as [Hs|Hs];
      rewrite ?(bool_decide_eq_true_2 _ Hp), ?(bool_decide_eq_false_2 _ Hp),
        ?(bool_decide_eq_true_2 _ Hi), ?(bool_decide_eq_false_2 _ Hi),
        ?(bool_decide_eq_true_2 _ Hs), ?(bool_decide_eq_false_2 _ Hs); simpl;
      symmetry; (apply bool_decide_eq_true_2 || apply bool_decide_eq_false_2); tauto. }
  unfold test_setup.verdict.
  destruct (bool_decide (test_setup.all_ok sys)); reflexivity.
Qed.

Lemma setup_check_reports_every_test_witness :
  (test_setup.main test_setup.ready).2 = test_setup.returned ()
  ∧ "🎉 All tests passed! Your setup is ready." ∈ (test_setup.main test_setup.ready).1
  ∧ "❌ plotly - Import failed: No module named 'plotly'"
    ∈ (test_setup.main test_setup.incomplete).1
  ∧ "✅ openpyxl - Successfully imported" ∈ (test_setup.main test_setup.incomplete).1
  ∧ "❌ Some tests failed. Please check the installation guide."
    ∈ (test_setup.main test_setup.incomplete).1.
Proof.
  rewrite (setup_check_reports_every_test test_setup.ready),
    (setup_check_reports_every_test test_setup.incomplete).
  - repeat split; apply (bool_decide_unpack _); by vm_compute.
  - split; [|done]. apply (bool_decide_unpack _). by vm_compute.
  - split; [|done]. apply (bool_decide_unpack _). by vm_compute.
Defined.

(** The loop over the packages ends at the first import that raises
    something else than an [ImportError]. *)
Lemma package_loop_raised (sys : test_setup.System)
    (before after : list (string * string)) (p : string * string) (acc : bool) :
  Forall (λ q, test_setup.import_ sys q.2 ≠ test_setup.import_raises) before →
  test_setup.import_ sys p.2 = test_setup.import_raises →
  test_setup.for_each (before ++ p :: after) (λ all_tests_passed p,
    ok ← test_setup.test_package_import sys p.1 (Some p.2);
    mret (if negb ok then false else all_tests_passed)) acc
  = (test_setup.package_line sys <$> before, test_setup.raised).
Proof.
  intros Hbefore Hp. revert acc.
  induction Hbefore as [|q before Hq _ IH]; intros acc.
  - cbn [app test_setup.for_each]. apply setup_run_raised.
    apply setup_run_raised.
    unfold test_setup.test_package_import. cbn [default]. unfold id.
    by rewrite Hp.
  - cbn [app test_setup.for_each]. rewrite fmap_cons.
    eapply (setup_run_bind _ _ [test_setup.package_line sys q]);
      [|reflexivity|apply IH].
    eapply setup_run_bind;
      [apply (test_package_import_run sys q Hq)| |reflexivity]; reflexivity.
Qed.

(** X18. An import that fails with something else than an [ImportError] is
    not caught: the setup check ends there with that exception, after the
    lines of the packages that come before it in the list, and prints
    neither the lines of the later tests nor a verdict. *)
Theorem setup_check_ends_at_an_uncaught_exception (sys : test_setup.System)
    (before after : list (string * string)) (p : string * string) :
  test_setup.packages = before ++ p :: after →
  Forall (λ q, test_setup.import_ sys q.2 ≠ test_setup.import_raises) before →
  test_setup.import_ sys p.2 = test_setup.import_raises →
  test_setup.main sys
  = (["🧪 Testing Electricity Dashboard Setup"; test_setup.rule;
      test_setup.python_line sys; EmptyString; "Testing package imports:"]
     ++ (test_setup.package_line sys <$> before),
     test_setup.raised).
Proof.
  intros Hpackages Hbefore Hp. unfold test_setup.main. rewrite Hpackages.
  printed. printed. tested (test_python_version_run sys).
  printed. printed. apply setup_run_raised. by apply package_loop_raised.
Qed.

Lemma setup_check_ends_at_an_uncaught_exception_witness :
  test_setup.main test_setup.broken_numpy
  = (["🧪 Testing Electricity Dashboard Setup"; test_setup.rule;
      "✅ Python 3.11.4 - Compatible"; EmptyString; "Testing package imports:";
      "✅ streamlit - Successfully imported"; "✅ pandas - Successfully imported";
      "✅ plotly - Successfully imported"],
     test_setup.raised).
Proof.
  apply (setup_check_ends_at_an_uncaught_exception test_setup.broken_numpy
           [("streamlit", "streamlit"); ("pandas", "pandas"); ("plotly", "plotly")]
           [("openpyxl", "openpyxl")] ("numpy", "numpy")).
  - reflexivity.
  - apply (bool_decide_unpack _). by vm_compute.
  - reflexivity.
Defined.
